(** * The leader-side replication progress tracker (package [tracker])

    A shallow embedding of [raft/tracker/state.go] and
    [raft/tracker/progress.go].  Go's [uint64] is modelled as [Z] with the
    wrap-around of every addition and subtraction written out; a method
    with a pointer receiver becomes a function that returns the updated
    [Progress]; a Go panic becomes the [Panic] case of [result]. *)

From Stdlib Require Import ZArith Lia Bool DecimalString.
From stdpp Require Import base list strings gmap sorting.

Local Open Scope Z_scope.

(** ** 64-bit unsigned arithmetic *)

Module U64.

Definition modulus : Z := 2 ^ 64.

Definition MaxUint64 : Z := modulus - 1.

(** The values a [uint64] can hold. *)
Definition in_range (z : Z) : Prop := 0 <= z < modulus.

Definition wrap (z : Z) : Z := z mod modulus.

(** Go's [a + b] and [a - b] on [uint64] operands. *)
Definition add (a b : Z) : Z := wrap (a + b).
Definition sub (a b : Z) : Z := wrap (a - b).

End U64.

(** ** Results of operations that may panic *)

Inductive result (A : Type) : Type :=
| Ok (a : A)
| Panic (msg : string).
Arguments Ok {A} a.
Arguments Panic {A} msg.

Definition bind {A B : Type} (r : result A) (k : A -> result B) : result B :=
  match r with
  | Ok a => k a
  | Panic msg => Panic msg
  end.

(** ** The inflight window *)

Module Inflights.

(** Modelled from the spec: the type [Inflights] and its methods [reset],
    [Full] and [Count] are declared in a file of the package that is not
    among the sources.  The spec describes the window as an ordered
    sequence of the highest log index of each outstanding message with a
    configured capacity; [full()] holds iff the length equals the
    capacity, [count()] is the length and [reset()] clears all
    outstanding entries. *)
Record t : Type := mk {
  size : Z;
  buffer : list Z
}.

(** Modelled from the spec: [count()] is the number of outstanding
    entries. *)
Definition Count (i : t) : Z := Z.of_nat (length (buffer i)).

(** Modelled from the spec: [full()] holds iff the count equals the
    capacity. *)
Definition Full (i : t) : bool := Count i =? size i.

(** Modelled from the spec: [reset()] clears all outstanding entries. *)
Definition reset (i : t) : t := {| size := size i; buffer := [] |}.

End Inflights.

Module tracker.

(** ** state.go *)

(** [type StateType uint64] *)
Definition StateType : Type := Z.

Definition StateProbe : StateType := 0.
Definition StateReplicate : StateType := 1.
Definition StateSnapshot : StateType := 2.

Definition prstmap : list string :=
  ["StateProbe"; "StateReplicate"; "StateSnapshot"]%string.

(** The verb [%d] applied to an unsigned integer (or a non-negative
    [int]): its decimal digits. *)
Definition fmt_d (z : Z) : string :=
  NilZero.string_of_uint (N.to_uint (Z.to_N z)).

(** [func (st StateType) String() string { return prstmap[uint64(st)] }]:
    indexing outside the array is a run-time panic. *)
Definition StateType_String (st : StateType) : result string :=
  match (if st <? 0 then None else prstmap !! Z.to_nat st) with
  | Some s => Ok s
  | None =>
      Panic ("runtime error: index out of range [" +:+ fmt_d st
               +:+ "] with length 3")
  end.

(** ** progress.go *)

Record Progress : Type := mkProgress {
  Match : Z;
  Next : Z;
  State : StateType;
  PendingSnapshot : Z;
  RecentActive : bool;
  ProbeSent : bool;
  Inflights : Inflights.t;
  IsLearner : bool
}.

(** Assignments to single fields. *)
Definition set_Match (v : Z) (pr : Progress) : Progress :=
  mkProgress v (Next pr) (State pr) (PendingSnapshot pr) (RecentActive pr)
             (ProbeSent pr) (Inflights pr) (IsLearner pr).
Definition set_Next (v : Z) (pr : Progress) : Progress :=
  mkProgress (Match pr) v (State pr) (PendingSnapshot pr) (RecentActive pr)
             (ProbeSent pr) (Inflights pr) (IsLearner pr).
Definition set_State (v : StateType) (pr : Progress) : Progress :=
  mkProgress (Match pr) (Next pr) v (PendingSnapshot pr) (RecentActive pr)
             (ProbeSent pr) (Inflights pr) (IsLearner pr).
Definition set_PendingSnapshot (v : Z) (pr : Progress) : Progress :=
  mkProgress (Match pr) (Next pr) (State pr) v (RecentActive pr)
             (ProbeSent pr) (Inflights pr) (IsLearner pr).
Definition set_ProbeSent (v : bool) (pr : Progress) : Progress :=
  mkProgress (Match pr) (Next pr) (State pr) (PendingSnapshot pr)
             (RecentActive pr) v (Inflights pr) (IsLearner pr).
Definition set_Inflights (v : Inflights.t) (pr : Progress) : Progress :=
  mkProgress (Match pr) (Next pr) (State pr) (PendingSnapshot pr)
             (RecentActive pr) (ProbeSent pr) v (IsLearner pr).

(** A [Progress] whose [uint64] fields hold [uint64] values. *)
Definition wf (pr : Progress) : Prop :=
  U64.in_range (Match pr) /\ U64.in_range (Next pr) /\
  U64.in_range (State pr) /\ U64.in_range (PendingSnapshot pr).

Definition ResetState (state : StateType) (pr : Progress) : Progress :=
  let pr := set_ProbeSent false pr in
  let pr := set_PendingSnapshot 0 pr in
  let pr := set_State state pr in
  set_Inflights (Inflights.reset (Inflights pr)) pr.

Definition max (a b : Z) : Z := if a >? b then a else b.

Definition min (a b : Z) : Z := if a >? b then b else a.

Definition ProbeAcked (pr : Progress) : Progress := set_ProbeSent false pr.

Definition BecomeProbe (pr : Progress) : Progress :=
  if State pr =? StateSnapshot then
    let pendingSnapshot := PendingSnapshot pr in
    let pr := ResetState StateProbe pr in
    set_Next (max (U64.add (Match pr) 1) (U64.add pendingSnapshot 1)) pr
  else
    let pr := ResetState StateProbe pr in
    set_Next (U64.add (Match pr) 1) pr.

Definition BecomeReplicate (pr : Progress) : Progress :=
  let pr := ResetState StateReplicate pr in
  set_Next (U64.add (Match pr) 1) pr.

Definition BecomeSnapshot (snapshoti : Z) (pr : Progress) : Progress :=
  let pr := ResetState StateSnapshot pr in
  set_PendingSnapshot snapshoti pr.

Definition MaybeUpdate (n : Z) (pr : Progress) : bool * Progress :=
  let '(updated, pr) :=
    if Match pr <? n
    then (true, ProbeAcked (set_Match n pr))
    else (false, pr) in
  (updated, set_Next (max (Next pr) (U64.add n 1)) pr).

Definition OptimisticUpdate (n : Z) (pr : Progress) : Progress :=
  set_Next (U64.add n 1) pr.

Definition MaybeDecrTo (rejected matchHint : Z) (pr : Progress)
  : bool * Progress :=
  if State pr =? StateReplicate then
    if rejected <=? Match pr then (false, pr)
    else (true, set_Next (U64.add (Match pr) 1) pr)
  else if negb (U64.sub (Next pr) 1 =? rejected) then (false, pr)
  else
    let pr := set_Next (max (min rejected (U64.add matchHint 1)) 1) pr in
    (true, set_ProbeSent false pr).

Definition IsPaused (pr : Progress) : result bool :=
  if State pr =? StateProbe then Ok (ProbeSent pr)
  else if State pr =? StateReplicate then Ok (Inflights.Full (Inflights pr))
  else if State pr =? StateSnapshot then Ok true
  else Panic "unexpected state".

(** [fmt] recovers from a panic raised by the [String] method of an
    operand of [%s] and prints the panic value in its place. *)
Definition fmt_s {A : Type} (String_ : A -> result string) (a : A) : string :=
  match String_ a with
  | Ok s => s
  | Panic msg => "%!s(PANIC=String method: " +:+ msg +:+ ")"
  end.

(** [func (pr *Progress) String() string]; [buf] is the
    [strings.Builder]. *)
Definition Progress_String (pr : Progress) : result string :=
  let buf :=
    fmt_s StateType_String (State pr) +:+ " match=" +:+ fmt_d (Match pr)
      +:+ " next=" +:+ fmt_d (Next pr) in
  let buf := if IsLearner pr then buf +:+ " learner" else buf in
  bind (IsPaused pr) (fun paused =>
  let buf := if paused then buf +:+ " paused" else buf in
  let buf :=
    if PendingSnapshot pr >? 0
    then buf +:+ " pendingSnap=" +:+ fmt_d (PendingSnapshot pr)
    else buf in
  let buf := if negb (RecentActive pr) then buf +:+ " inactive" else buf in
  let n := Inflights.Count (Inflights pr) in
  let buf :=
    if n >? 0 then
      let buf := buf +:+ " inflight=" +:+ fmt_d n in
      if Inflights.Full (Inflights pr) then buf +:+ "[full]" else buf
    else buf in
  Ok buf).

(** [type ProgressMap map[uint64]*Progress]; the table owns its entries,
    which are taken to be non-nil. *)
Abbreviation ProgressMap := (gmap Z Progress).

(** The orders in which [for k := range m] may visit the keys of [m]: Go
    leaves the order unspecified, every key is visited once. *)
Definition range_order (m : ProgressMap) (ks : list Z) : Prop :=
  NoDup ks /\ forall k, k ∈ ks <-> is_Some (m !! k).

(** [sort.Slice(ids, less)] of Go's standard library, as an insertion
    sort; on ids without repetition every sorting algorithm returns the
    same list. *)
Fixpoint sort_insert (less : Z -> Z -> bool) (x : Z) (l : list Z) : list Z :=
  match l with
  | [] => [x]
  | y :: l' => if less x y then x :: y :: l' else y :: sort_insert less x l'
  end.

Definition sort_Slice (less : Z -> Z -> bool) (ids : list Z) : list Z :=
  foldr (sort_insert less) [] ids.

Definition newline : string := String (Ascii.ascii_of_nat 10) EmptyString.

(** The operand [m[id]] of [%s]: a missing key reads as a nil pointer,
    whose [String] method panics and which [fmt] prints as [<nil>]. *)
Definition fmt_s_entry (e : option Progress) : string :=
  match e with
  | Some pr => fmt_s Progress_String pr
  | None => "<nil>"
  end.

(** [func (m ProgressMap) String() string], for the order [ks] in which
    the [range] loop visits the keys. *)
Definition ProgressMap_String (m : ProgressMap) (ks : list Z) : string :=
  let ids := foldl (fun ids k => ids ++ [k]) [] ks in
  let ids := sort_Slice (fun a b => a <? b) ids in
  foldl
    (fun buf id =>
       buf +:+ fmt_d id +:+ ": " +:+ fmt_s_entry (m !! id) +:+ newline)
    EmptyString ids.

End tracker.

(** * The Kubernetes traffic of the robustness tests (package [traffic]) *)

(** ** 64-bit signed arithmetic *)

Module Int.

(** Go's [int] on the 64-bit platforms: the values and the wrap-around of
    a product. *)
Definition in_range (z : Z) : Prop := - 2 ^ 63 <= z < 2 ^ 63.

Definition wrap (z : Z) : Z := (z + 2 ^ 63) mod 2 ^ 64 - 2 ^ 63.

Definition mul (a b : Z) : Z := wrap (a * b).

(** Go's [a / b] truncates toward zero; the divisors used are 2. *)
Definition quo (a b : Z) : Z := Z.quot a b.

(** The verb [%d] applied to an [int]. *)
Definition fmt_d (z : Z) : string :=
  if z <? 0 then "-" +:+ tracker.fmt_d (- z) else tracker.fmt_d z.

End Int.

Module traffic.

(** [mvccpb.KeyValue], the fields the traffic reads; [Key] is the byte
    slice read as a string. *)
Record KeyValue : Type := mkKeyValue {
  Key : string;
  ModRevision : Z
}.

(** [type KubernetesRequestType string] *)
Definition KubernetesRequestType : Type := string.

Definition KubernetesUpdate : KubernetesRequestType := "update".
Definition KubernetesCreate : KubernetesRequestType := "create".
Definition KubernetesDelete : KubernetesRequestType := "delete".

(** [choiceWeight[KubernetesRequestType]], declared in another file of the
    package: a choice and its weight. *)
Record choiceWeight : Type := mkChoice {
  choice : KubernetesRequestType;
  weight : Z
}.

Record kubernetesTraffic : Type := mkTraffic {
  averageKeyCount : Z;
  resource : string;
  namespace : string;
  writeChoices : list choiceWeight
}.

(** The [traffic] field of the configuration [KubernetesTraffic]. *)
Definition KubernetesTraffic_traffic : kubernetesTraffic :=
  {| averageKeyCount := 5;
     resource := "pods";
     namespace := "default";
     writeChoices :=
       [ mkChoice KubernetesUpdate 75;
         mkChoice KubernetesDelete 15;
         mkChoice KubernetesCreate 10 ] |}.

(** A Go [error]: [None] is [nil]. *)
Definition error : Type := option string.

(** What one call of a method of the traffic finds outside of it: the
    random draws, the next request id, and the answers of the recording
    client.  The functions they stand for are not among the sources. *)
Record env : Type := mkEnv {
  (** [rand.Intn(n)], for [n > 0] *)
  rand_Intn : Z -> Z;
  (** [pickRandom(choices)] *)
  pickRandom : list choiceWeight -> KubernetesRequestType;
  (** [stringutil.RandString(l)] *)
  RandString : Z -> string;
  (** [ids.NewRequestId()] *)
  NewRequestId : Z;
  (** [c.Range(ctx, key, withPrefix)] *)
  client_Range : string -> bool -> list KeyValue * error;
  (** [c.CompareRevisionAndPut(ctx, key, value, expectedRevision)] *)
  client_CompareRevisionAndPut : string -> string -> Z -> error;
  (** [c.CompareRevisionAndDelete(ctx, key, expectedRevision)] *)
  client_CompareRevisionAndDelete : string -> Z -> error
}.

(** The calls a method makes on the client and on the rate limiter, in
    order. *)
Inductive call : Type :=
| CallRange (key : string) (withPrefix : bool)
| CallCompareRevisionAndPut (key value : string) (expectedRevision : Z)
| CallCompareRevisionAndDelete (key : string) (expectedRevision : Z)
| CallWait.

(** A computation that logs its calls and may panic.  Contexts carry
    deadlines and cancellation only: a request that runs out of time is a
    request whose answer is an error. *)
Definition M (A : Type) : Type := list call * result A.

Definition ret {A : Type} (a : A) : M A := ([], Ok a).

Definition panic {A : Type} (msg : string) : M A := ([], Panic msg).

Definition mbind {A B : Type} (m : M A) (k : A -> M B) : M B :=
  match m with
  | (log, Ok a) => let '(log', r) := k a in (log ++ log', r)
  | (log, Panic msg) => (log, Panic msg)
  end.

Definition do_call {A : Type} (c : call) (answer : A) : M A :=
  ([c], Ok answer).

(** [func (t kubernetesTraffic) generateKey() string] *)
Definition generateKey (t : kubernetesTraffic) (e : env) : string :=
  "/registry/" +:+ resource t +:+ "/" +:+ namespace t +:+ "/"
    +:+ RandString e 5.

(** [func (t kubernetesTraffic) Range(ctx, c, key, withPrefix)] *)
Definition Range (t : kubernetesTraffic) (e : env) (key : string)
  (withPrefix : bool) : M (list KeyValue * error) :=
  do_call (CallRange key withPrefix) (client_Range e key withPrefix).

(** [func (t kubernetesTraffic) Update(ctx, c, key, value, expectedRevision)] *)
Definition Update (t : kubernetesTraffic) (e : env) (key value : string)
  (expectedRevision : Z) : M error :=
  do_call (CallCompareRevisionAndPut key value expectedRevision)
          (client_CompareRevisionAndPut e key value expectedRevision).

(** [func (t kubernetesTraffic) Create(ctx, c, key, value)] *)
Definition Create (t : kubernetesTraffic) (e : env) (key value : string)
  : M error :=
  Update t e key value 0.

(** [func (t kubernetesTraffic) Delete(ctx, c, key, expectedRevision)] *)
Definition Delete (t : kubernetesTraffic) (e : env) (key : string)
  (expectedRevision : Z) : M error :=
  do_call (CallCompareRevisionAndDelete key expectedRevision)
          (client_CompareRevisionAndDelete e key expectedRevision).

(** The verb [%q] applied to a text without characters that it escapes:
    the text between double quotes. *)
Definition fmt_q (s : string) : string :=
  let quote := String (Ascii.ascii_of_nat 34) EmptyString in
  quote +:+ s +:+ quote.

(** [len(objects)] *)
Definition len (objects : list KeyValue) : Z := Z.of_nat (length objects).

(** [objects[rand.Intn(len(objects))]]: [rand.Intn] panics on an argument
    that is not positive, indexing panics outside the slice. *)
Definition random_object (e : env) (objects : list KeyValue) : M KeyValue :=
  if len objects <=? 0 then panic "invalid argument to Intn"
  else
    let i := rand_Intn e (len objects) in
    if i <? 0 then panic "index out of range"
    else match objects !! Z.to_nat i with
         | Some kv => ret kv
         | None => panic "index out of range"
         end.

(** [func (t kubernetesTraffic) Write(ctx, c, ids, objects) (err error)] *)
Definition Write (t : kubernetesTraffic) (e : env) (objects : list KeyValue)
  : M error :=
  if len objects <? Int.quo (averageKeyCount t) 2 then
    Create t e (generateKey t e) (Int.fmt_d (NewRequestId e))
  else
    mbind (random_object e objects) (fun randomPod =>
    if len objects >? Int.quo (Int.mul (averageKeyCount t) 3) 2 then
      Delete t e (Key randomPod) (ModRevision randomPod)
    else
      let op := pickRandom e (writeChoices t) in
      if String.eqb op KubernetesDelete then
        Delete t e (Key randomPod) (ModRevision randomPod)
      else if String.eqb op KubernetesUpdate then
        Update t e (Key randomPod) (Int.fmt_d (NewRequestId e))
               (ModRevision randomPod)
      else if String.eqb op KubernetesCreate then
        Create t e (generateKey t e) (Int.fmt_d (NewRequestId e))
      else panic ("invalid choice: " +:+ fmt_q op)).

(** One pass through the body of the loop of [Run], after the [select]
    has found neither channel ready. *)
Definition Run_iteration (t : kubernetesTraffic) (e : env) : M unit :=
  mbind (Range t e ("/registry/" +:+ resource t +:+ "/") true)
    (fun '(objects, err) =>
  match err with
  | Some _ => ret tt
  | None =>
      mbind (do_call CallWait tt) (fun _ =>
      mbind (Write t e objects) (fun err =>
      match err with
      | Some _ => ret tt
      | None => do_call CallWait tt
      end))
  end).

(** *** Conditions on what the traffic finds outside *)

(** [rand.Intn(n)] answers in [[0, n)]. *)
Definition rand_in_range (e : env) : Prop :=
  forall n, 0 < n -> 0 <= rand_Intn e n < n.

(** [pickRandom] answers one of the three request types. *)
Definition pick_known (e : env) (t : kubernetesTraffic) : Prop :=
  let op := pickRandom e (writeChoices t) in
  op = KubernetesUpdate \/ op = KubernetesDelete \/ op = KubernetesCreate.

(** A request that creates a key generated by the traffic, expecting
    that the key has no revision yet. *)
Definition creates (t : kubernetesTraffic) (e : env) (c : call) : Prop :=
  exists value, c = CallCompareRevisionAndPut (generateKey t e) value 0.

(** A request that overwrites or deletes one of [objects], expecting the
    revision that was read. *)
Definition guards_read_revision (objects : list KeyValue) (c : call) : Prop :=
  exists kv, kv ∈ objects /\
    ((exists value,
        c = CallCompareRevisionAndPut (Key kv) value (ModRevision kv)) \/
     c = CallCompareRevisionAndDelete (Key kv) (ModRevision kv)).


(** An environment for examples: the first object is drawn, updates are
    picked, every request succeeds. *)
Definition example_env (found : list KeyValue) : env :=
  {| rand_Intn := fun _ => 0;
     pickRandom := fun _ => KubernetesUpdate;
     RandString := fun _ => "abcde";
     NewRequestId := 42;
     client_Range := fun _ _ => (found, None);
     client_CompareRevisionAndPut := fun _ _ _ => None;
     client_CompareRevisionAndDelete := fun _ _ => None |}.

End traffic.

Import tracker.

(** ** Definitions used to state the properties *)

(** The states named in [state.go]. *)
Definition recognized (st : StateType) : Prop :=
  st = StateProbe \/ st = StateReplicate \/ st = StateSnapshot.

(** The successor of a log index as [uint64] computes it. *)
Definition succ64 (z : Z) : Z := if z =? U64.MaxUint64 then 0 else z + 1.

(** The predecessor of a log index as [uint64] computes it. *)
Definition pred64 (z : Z) : Z := if z =? 0 then U64.MaxUint64 else z - 1.

(** The [Progress] values after each call of a sequence of [MaybeUpdate]
    calls, in order. *)
Fixpoint MaybeUpdate_trace (ns : list Z) (pr : Progress) : list Progress :=
  match ns with
  | [] => []
  | n :: ns' =>
      let pr' := (MaybeUpdate n pr).2 in
      pr' :: MaybeUpdate_trace ns' pr'
  end.

(** [become_probe(); become_replicate(); become_snapshot(5); become_probe()] *)
Definition round_trip (pr : Progress) : Progress :=
  BecomeProbe (BecomeSnapshot 5 (BecomeReplicate (BecomeProbe pr))).

(** *** The rendering the spec describes *)

(** The name of a recognized state. *)
Definition state_name (st : StateType) : string :=
  if st =? StateProbe then "StateProbe"
  else if st =? StateReplicate then "StateReplicate"
  else "StateSnapshot".

(** Whether sending is paused, for a recognized state. *)
Definition paused (pr : Progress) : bool :=
  if State pr =? StateProbe then ProbeSent pr
  else if State pr =? StateReplicate then Inflights.Full (Inflights pr)
  else true.

(** A piece of text that is present iff [b] holds. *)
Definition flag (b : bool) (s : string) : string :=
  if b then s else EmptyString.

(** The text for one follower: state name, match and next, then the
    optional flags in the order the spec lists them. *)
Definition render_Progress (pr : Progress) : string :=
  state_name (State pr)
    +:+ " match=" +:+ fmt_d (Match pr)
    +:+ " next=" +:+ fmt_d (Next pr)
    +:+ flag (IsLearner pr) " learner"
    +:+ flag (paused pr) " paused"
    +:+ flag (negb (PendingSnapshot pr =? 0))
             (" pendingSnap=" +:+ fmt_d (PendingSnapshot pr))
    +:+ flag (negb (RecentActive pr)) " inactive"
    +:+ flag (negb (Inflights.Count (Inflights pr) =? 0))
             (" inflight=" +:+ fmt_d (Inflights.Count (Inflights pr))
                +:+ flag (Inflights.Full (Inflights pr)) "[full]").

(** The line of the follower [e.1] with progress [e.2]. *)
Definition render_line (e : Z * Progress) : string :=
  fmt_d e.1 +:+ ": " +:+ render_Progress e.2 +:+ newline.

Definition concat_lines (ls : list string) : string :=
  foldr String.append EmptyString ls.

(** The order of table entries by follower id. *)
Definition id_le (a b : Z * Progress) : Prop := a.1 <= b.1.

#[local] Instance id_le_dec : RelDecision id_le.
Proof. intros a b. unfold id_le. apply _. Defined.

(** The entries of a table by follower id ascending. *)
Definition ascending_entries (m : ProgressMap) : list (Z * Progress) :=
  merge_sort id_le (map_to_list m).

(** The number of occurrences of a character in a text. *)
Fixpoint count_char (c : Ascii.ascii) (s : string) : nat :=
  match s with
  | EmptyString => 0
  | String a s' => (if Ascii.eqb a c then 1 else 0) + count_char c s'
  end.

(** The number of line ends in a text. *)
Definition count_lines (s : string) : nat :=
  count_char (Ascii.ascii_of_nat 10) s.

(** A table of three followers, one in each state. *)
Definition example_table : ProgressMap :=
  <[5 := mkProgress 3 7 StateSnapshot 10 false true
                    (Inflights.mk 2 [5; 6]) true]>
    (<[2 := mkProgress 3 4 StateReplicate 0 true false
                       (Inflights.mk 2 [5]) false]>
       (<[11 := mkProgress 0 1 StateProbe 0 true false
                           (Inflights.mk 2 []) false]> ∅)).

(** *** Sequences of operations *)

(** The methods of [progress.go] that change a [Progress], with their
    arguments. *)
Inductive op : Type :=
| OpResetState (state : StateType)
| OpProbeAcked
| OpBecomeProbe
| OpBecomeReplicate
| OpBecomeSnapshot (snapshoti : Z)
| OpMaybeUpdate (n : Z)
| OpOptimisticUpdate (n : Z)
| OpMaybeDecrTo (rejected matchHint : Z).

(** One call; the boolean results of [MaybeUpdate] and [MaybeDecrTo] are
    dropped. *)
Definition apply_op (o : op) (pr : Progress) : Progress :=
  match o with
  | OpResetState state => ResetState state pr
  | OpProbeAcked => ProbeAcked pr
  | OpBecomeProbe => BecomeProbe pr
  | OpBecomeReplicate => BecomeReplicate pr
  | OpBecomeSnapshot snapshoti => BecomeSnapshot snapshoti pr
  | OpMaybeUpdate n => (MaybeUpdate n pr).2
  | OpOptimisticUpdate n => OptimisticUpdate n pr
  | OpMaybeDecrTo rejected matchHint => (MaybeDecrTo rejected matchHint pr).2
  end.

(** A sequence of calls, first to last. *)
Definition run_ops (os : list op) (pr : Progress) : Progress :=
  foldl (fun pr o => apply_op o pr) pr os.

(** The calls that go through [ResetState]. *)
Definition is_transition (o : op) : bool :=
  match o with
  | OpResetState _ | OpBecomeProbe | OpBecomeReplicate | OpBecomeSnapshot _ =>
      true
  | _ => false
  end.

(** The arguments of a call are [uint64] values, and the indices it
    acknowledges or marks as sent are below [MaxUint64]. *)
Definition op_bounded (o : op) : Prop :=
  match o with
  | OpResetState state => U64.in_range state
  | OpBecomeSnapshot snapshoti => U64.in_range snapshoti
  | OpMaybeUpdate n | OpOptimisticUpdate n => 0 <= n < U64.MaxUint64
  | OpMaybeDecrTo rejected matchHint =>
      U64.in_range rejected /\ U64.in_range matchHint
  | _ => True
  end.

(** The condition every bounded call keeps. *)
Definition positive_Next (pr : Progress) : Prop :=
  wf pr /\ 1 <= Next pr /\ Match pr < U64.MaxUint64.

(** *** Tables with entries in any state *)

(** The line [ProgressMap.String] writes for the id [id]. *)
Definition table_line (m : ProgressMap) (id : Z) : string :=
  fmt_d id +:+ ": " +:+ fmt_s_entry (m !! id) +:+ newline.

(** A table with a follower in a state that [state.go] does not name. *)
Definition unrecognized_table : ProgressMap :=
  <[3 := mkProgress 4 5 9 0 true false (Inflights.mk 2 []) false]>
    (<[7 := mkProgress 0 1 StateProbe 0 true true
                       (Inflights.mk 2 []) false]> ∅).

(** ** 64-bit unsigned arithmetic: facts *)

Lemma U64_modulus_pos : 0 < U64.modulus.
Proof. reflexivity. Qed.

(** The successor wraps to 0 exactly at [MaxUint64]. *)
Lemma U64_add_1 z : U64.in_range z -> U64.add z 1 = succ64 z.
Proof.
  unfold U64.in_range, U64.add, U64.wrap, succ64, U64.MaxUint64. intros H.
  destruct (Z.eqb_spec z (U64.modulus - 1)) as [->|Hne].
  - replace (U64.modulus - 1 + 1) with U64.modulus by lia.
    apply Z.mod_same. pose proof U64_modulus_pos. lia.
  - apply Z.mod_small. lia.
Qed.

(** The predecessor wraps to [MaxUint64] exactly at 0. *)
Lemma U64_sub_1 z : U64.in_range z -> U64.sub z 1 = pred64 z.
Proof.
  unfold U64.in_range, U64.sub, U64.wrap, pred64, U64.MaxUint64. intros H.
  destruct (Z.eqb_spec z 0) as [->|Hne].
  - reflexivity.
  - apply Z.mod_small. lia.
Qed.

Lemma succ64_in_range z : U64.in_range z -> U64.in_range (succ64 z).
Proof.
  unfold succ64, U64.in_range, U64.MaxUint64. pose proof U64_modulus_pos.
  destruct (Z.eqb_spec z (U64.modulus - 1)); lia.
Qed.

Lemma max_Zmax a b : max a b = Z.max a b.
Proof. unfold max. destruct (Z.gtb_spec a b); lia. Qed.

Lemma min_Zmin a b : min a b = Z.min a b.
Proof. unfold min. destruct (Z.gtb_spec a b); lia. Qed.

(** Unfolds the range predicates and case-splits on the wrap-around tests,
    leaving linear arithmetic over the opaque modulus. *)
Ltac u64_arith :=
  unfold wf, U64.in_range, succ64, pred64, U64.MaxUint64 in *;
  pose proof U64_modulus_pos;
  repeat match goal with
         | |- context [Z.eqb ?a ?b] => destruct (Z.eqb_spec a b)
         | H : context [Z.eqb ?a ?b] |- _ => destruct (Z.eqb_spec a b)
         end;
  try lia.

(** Closes range and well-formedness goals about concrete values. *)
Ltac closed_range := vm_compute; intuition discriminate.

(** Range goals over the named states and the value of the modulus. *)
Ltac wf_arith :=
  unfold U64.in_range, StateProbe, StateReplicate, StateSnapshot in *;
  pose proof (eq_refl : U64.modulus = 18446744073709551616);
  repeat split; lia.

(** ** Well-formedness is preserved *)

Lemma MaybeUpdate_wf n pr :
  U64.in_range n -> wf pr -> wf (MaybeUpdate n pr).2.
Proof.
  intros Hn (Hm & Hx & Hs & Hp). unfold MaybeUpdate.
  pose proof (succ64_in_range n Hn) as Hsucc.
  destruct (Z.ltb_spec (Match pr) n); unfold wf; simpl;
    rewrite (U64_add_1 n Hn), max_Zmax;
    (repeat split; try apply Hn; try apply Hm; try apply Hs; try apply Hp);
    unfold U64.in_range in *; lia.
Qed.

(** ** MaybeUpdate *)

(** What [MaybeUpdate] computes, field by field. *)
Lemma MaybeUpdate_unfold n pr :
  U64.in_range n ->
  MaybeUpdate n pr =
    if Match pr <? n
    then (true,
          set_Next (Z.max (Next pr) (succ64 n))
                   (set_ProbeSent false (set_Match n pr)))
    else (false, set_Next (Z.max (Next pr) (succ64 n)) pr).
Proof.
  intros Hn. unfold MaybeUpdate, ProbeAcked.
  destruct (Match pr <? n); simpl; rewrite (U64_add_1 n Hn), max_Zmax;
    reflexivity.
Qed.

(** C1, as the claim words it, fails at the largest index: acknowledging
    [MaxUint64] leaves [Next] at 1, where the claim asks for
    [max(next_index, n + 1)]. *)
Lemma C1_MaybeUpdate_counterexample :
  let pr := mkProgress 0 1 StateProbe 0 true false (Inflights.mk 4 []) false in
  let n := U64.MaxUint64 in
  wf pr /\ U64.in_range n /\
  Next (MaybeUpdate n pr).2 = 1 /\
  Next (MaybeUpdate n pr).2 <> Z.max (Next pr) (n + 1).
Proof. vm_compute. intuition discriminate. Qed.

(** C1 (amended): [MaybeUpdate n] sets [Match = n], clears [ProbeSent] and
    returns true when [n > Match]; in every case it sets [Next] to the
    maximum of [Next] and the 64-bit successor of [n], which is
    [max(Next, n + 1)] for every [n] below [MaxUint64] and leaves [Next]
    unchanged at [n = MaxUint64]; it returns false exactly when
    [n <= Match], and then [Match] and [State] are unchanged. *)
Theorem C1_MaybeUpdate_spec (n : Z) (pr : Progress) :
  wf pr -> U64.in_range n ->
  let updated := (MaybeUpdate n pr).1 in
  let pr' := (MaybeUpdate n pr).2 in
  (Match pr < n ->
     Match pr' = n /\ ProbeSent pr' = false /\ updated = true) /\
  Next pr' = Z.max (Next pr) (succ64 n) /\
  (n < U64.MaxUint64 -> Next pr' = Z.max (Next pr) (n + 1)) /\
  (n = U64.MaxUint64 -> Next pr' = Next pr) /\
  (updated = false <-> n <= Match pr) /\
  (n <= Match pr -> Match pr' = Match pr /\ State pr' = State pr) /\
  State pr' = State pr.
Proof.
  intros Hwf Hn. cbv zeta. rewrite (MaybeUpdate_unfold n pr Hn).
  destruct (Z.ltb_spec (Match pr) n) as [Hlt|Hge]; simpl;
    repeat split; intros; try reflexivity; try discriminate; u64_arith.
Qed.

Lemma C1_MaybeUpdate_witness :
  let pr := mkProgress 3 4 StateProbe 0 true true (Inflights.mk 4 []) false in
  Match (MaybeUpdate 9 pr).2 = 9 /\ Next (MaybeUpdate 9 pr).2 = 10 /\
  (MaybeUpdate 9 pr).1 = true /\ (MaybeUpdate 2 pr).1 = false.
Proof.
  cbv zeta.
  set (pr := mkProgress 3 4 StateProbe 0 true true (Inflights.mk 4 []) false).
  assert (Hwf : wf pr) by closed_range.
  assert (H9 : U64.in_range 9) by closed_range.
  assert (H2 : U64.in_range 2) by closed_range.
  destruct (C1_MaybeUpdate_spec 9 pr Hwf H9) as (Ha & _ & Hb & _).
  destruct (C1_MaybeUpdate_spec 2 pr Hwf H2) as (_ & _ & _ & _ & Hc & _).
  assert (Hlt : Match pr < 9) by reflexivity.
  destruct (Ha Hlt) as (Hm & _ & Hu).
  refine (conj Hm (conj _ (conj Hu _))).
  - rewrite Hb; reflexivity.
  - apply Hc. discriminate.
Defined.

(** ** MaybeDecrTo *)

(** What [MaybeDecrTo] computes, with the two wrap-around points named. *)
Lemma MaybeDecrTo_unfold rejected matchHint pr :
  U64.in_range (Next pr) -> U64.in_range (Match pr) ->
  U64.in_range matchHint ->
  MaybeDecrTo rejected matchHint pr =
    if State pr =? StateReplicate then
      if rejected <=? Match pr then (false, pr)
      else (true, set_Next (succ64 (Match pr)) pr)
    else if pred64 (Next pr) =? rejected then
      (true,
       set_ProbeSent false
         (set_Next (Z.max (Z.min rejected (succ64 matchHint)) 1) pr))
    else (false, pr).
Proof.
  intros Hn Hm Hh. unfold MaybeDecrTo.
  rewrite (U64_add_1 _ Hm), (U64_add_1 _ Hh), (U64_sub_1 _ Hn).
  rewrite max_Zmax, min_Zmin.
  destruct (State pr =? StateReplicate); [reflexivity|].
  destruct (pred64 (Next pr) =? rejected); reflexivity.
Qed.

(** C2: in [StateReplicate], a rejection at or below [Match] returns false
    and leaves the [Progress] as it was, field by field; any other
    rejection returns true and leaves [Next = Match + 1] and every other
    field as it was (the hint is not used). *)
Theorem C2_MaybeDecrTo_Replicate (rejected matchHint : Z) (pr : Progress) :
  wf pr -> U64.in_range rejected -> U64.in_range matchHint ->
  State pr = StateReplicate ->
  let ok := (MaybeDecrTo rejected matchHint pr).1 in
  let pr' := (MaybeDecrTo rejected matchHint pr).2 in
  (rejected <= Match pr ->
     MaybeDecrTo rejected matchHint pr = (false, pr)) /\
  (Match pr < rejected ->
     MaybeDecrTo rejected matchHint pr = (true, set_Next (Match pr + 1) pr)) /\
  (rejected <= Match pr ->
     ok = false /\ Next pr' = Next pr /\ Match pr' = Match pr /\
     State pr' = State pr /\ PendingSnapshot pr' = PendingSnapshot pr /\
     RecentActive pr' = RecentActive pr /\ ProbeSent pr' = ProbeSent pr /\
     Inflights pr' = Inflights pr /\ IsLearner pr' = IsLearner pr) /\
  (Match pr < rejected ->
     ok = true /\ Next pr' = Match pr + 1 /\ Match pr' = Match pr /\
     State pr' = State pr /\ PendingSnapshot pr' = PendingSnapshot pr /\
     RecentActive pr' = RecentActive pr /\ ProbeSent pr' = ProbeSent pr /\
     Inflights pr' = Inflights pr /\ IsLearner pr' = IsLearner pr).
Proof.
  intros (Hm & Hn & _ & _) Hr Hh Hst. cbv zeta.
  rewrite (MaybeDecrTo_unfold _ _ _ Hn Hm Hh).
  replace (State pr =? StateReplicate) with true
    by (rewrite Hst; reflexivity).
  assert (Hsucc : Match pr < rejected -> succ64 (Match pr) = Match pr + 1)
    by (intros; u64_arith).
  destruct (Z.leb_spec rejected (Match pr)) as [Hle|Hgt].
  - split; [reflexivity|]. split; [lia|]. split; [|lia].
    intros _. repeat split.
  - split; [lia|]. split; [|split; [lia|]]; intros _.
    + do 2 f_equal. exact (Hsucc Hgt).
    + simpl. rewrite <- (Hsucc Hgt). repeat split.
Qed.

Lemma C2_MaybeDecrTo_Replicate_witness :
  let pr :=
    mkProgress 5 9 StateReplicate 0 true false (Inflights.mk 4 [6; 7; 8]) false in
  ((MaybeDecrTo 3 0 pr).1 = false /\ Next (MaybeDecrTo 3 0 pr).2 = 9) /\
  ((MaybeDecrTo 8 7 pr).1 = true /\ Next (MaybeDecrTo 8 7 pr).2 = 5 + 1 /\
   Match (MaybeDecrTo 8 7 pr).2 = 5).
Proof.
  cbv zeta.
  set (pr := mkProgress 5 9 StateReplicate 0 true false
                        (Inflights.mk 4 [6; 7; 8]) false).
  assert (Hwf : wf pr) by closed_range.
  assert (H0 : U64.in_range 0) by closed_range.
  assert (H3 : U64.in_range 3) by closed_range.
  assert (H7 : U64.in_range 7) by closed_range.
  assert (H8 : U64.in_range 8) by closed_range.
  assert (Hle : 3 <= Match pr) by discriminate.
  assert (Hlt : Match pr < 8) by reflexivity.
  destruct (C2_MaybeDecrTo_Replicate 3 0 pr Hwf H3 H0 eq_refl)
    as (_ & _ & Hstale & _).
  destruct (C2_MaybeDecrTo_Replicate 8 7 pr Hwf H8 H7 eq_refl)
    as (_ & _ & _ & Hgenuine).
  destruct (Hstale Hle) as (Hs1 & Hs2 & _).
  destruct (Hgenuine Hlt) as (Hg1 & Hg2 & Hg3 & _).
  exact (conj (conj Hs1 Hs2) (conj Hg1 (conj Hg2 Hg3))).
Defined.

(** C3, as the claim words it, fails when the hint is the largest index:
    [hint + 1] wraps to 0, so the probe restarts at 1, where the claim
    asks for [max(min(rejected, hint + 1), 1) = 5]. *)
Lemma C3_MaybeDecrTo_Probe_counterexample :
  let pr := mkProgress 0 6 StateProbe 0 true true (Inflights.mk 4 []) false in
  let rejected := 5 in
  let hint := U64.MaxUint64 in
  wf pr /\ U64.in_range rejected /\ U64.in_range hint /\
  rejected = Next pr - 1 /\
  Next (MaybeDecrTo rejected hint pr).2 = 1 /\
  Next (MaybeDecrTo rejected hint pr).2
    <> Z.max (Z.min rejected (hint + 1)) 1.
Proof. vm_compute. intuition discriminate. Qed.

(** C3 (amended): in [StateProbe] or [StateSnapshot], with [Next - 1] and
    [hint + 1] taken in 64-bit unsigned arithmetic: a rejection whose index
    is not [Next - 1] ([MaxUint64] when [Next = 0]) returns false and
    leaves the [Progress] as it was; otherwise [Next] becomes
    [max(min(rejected, hint + 1), 1)] when [hint < MaxUint64] and 1 when
    [hint = MaxUint64], which is never below 1, [ProbeSent] is cleared, no
    other field changes, and the call returns true. *)
Theorem C3_MaybeDecrTo_Probe (rejected matchHint : Z) (pr : Progress) :
  wf pr -> U64.in_range rejected -> U64.in_range matchHint ->
  State pr = StateProbe \/ State pr = StateSnapshot ->
  let ok := (MaybeDecrTo rejected matchHint pr).1 in
  let pr' := (MaybeDecrTo rejected matchHint pr).2 in
  (rejected <> pred64 (Next pr) ->
     MaybeDecrTo rejected matchHint pr = (false, pr)) /\
  (rejected = pred64 (Next pr) ->
     let next' :=
       if matchHint =? U64.MaxUint64 then 1
       else Z.max (Z.min rejected (matchHint + 1)) 1 in
     MaybeDecrTo rejected matchHint pr
       = (true, set_ProbeSent false (set_Next next' pr)) /\
     1 <= next') /\
  (1 <= Next pr -> pred64 (Next pr) = Next pr - 1) /\
  (rejected <> pred64 (Next pr) ->
     ok = false /\ Next pr' = Next pr /\ ProbeSent pr' = ProbeSent pr /\
     Match pr' = Match pr /\ State pr' = State pr /\
     PendingSnapshot pr' = PendingSnapshot pr /\
     RecentActive pr' = RecentActive pr /\
     Inflights pr' = Inflights pr /\ IsLearner pr' = IsLearner pr) /\
  (rejected = pred64 (Next pr) ->
     ok = true /\
     (matchHint < U64.MaxUint64 ->
        Next pr' = Z.max (Z.min rejected (matchHint + 1)) 1) /\
     (matchHint = U64.MaxUint64 -> Next pr' = 1) /\
     1 <= Next pr' /\ ProbeSent pr' = false /\
     Match pr' = Match pr /\ State pr' = State pr /\
     PendingSnapshot pr' = PendingSnapshot pr /\
     RecentActive pr' = RecentActive pr /\
     Inflights pr' = Inflights pr /\ IsLearner pr' = IsLearner pr).
Proof.
  intros (Hm & Hn & _ & _) Hr Hh Hst. cbv zeta.
  rewrite (MaybeDecrTo_unfold _ _ _ Hn Hm Hh).
  assert (Hnr : (State pr =? StateReplicate) = false)
    by (destruct Hst as [-> | ->]; reflexivity).
  rewrite Hnr.
  destruct (Z.eqb_spec (pred64 (Next pr)) rejected) as [Heq|Hne].
  - split; [congruence|]. split; [|split; [|split; [congruence|]]].
    + intros _. split.
      * do 3 f_equal. u64_arith.
      * u64_arith.
    + intros Hpos. u64_arith.
    + intros _. simpl.
      split; [reflexivity|]. split; [intros; u64_arith|].
      split; [intros; u64_arith|]. split; [u64_arith|]. repeat split.
  - split; [reflexivity|]. split; [congruence|].
    split; [intros Hpos; u64_arith|]. split; [|congruence].
    intros _. repeat split.
Qed.

Lemma C3_MaybeDecrTo_Probe_witness :
  let pr := mkProgress 0 6 StateProbe 0 true true (Inflights.mk 4 []) false in
  ((MaybeDecrTo 4 2 pr).1 = false /\ Next (MaybeDecrTo 4 2 pr).2 = 6 /\
   ProbeSent (MaybeDecrTo 4 2 pr).2 = true) /\
  ((MaybeDecrTo 5 2 pr).1 = true /\
   Next (MaybeDecrTo 5 2 pr).2 = Z.max (Z.min 5 (2 + 1)) 1 /\
   ProbeSent (MaybeDecrTo 5 2 pr).2 = false).
Proof.
  cbv zeta.
  set (pr := mkProgress 0 6 StateProbe 0 true true (Inflights.mk 4 []) false).
  assert (Hwf : wf pr) by closed_range.
  assert (H2 : U64.in_range 2) by closed_range.
  assert (H4 : U64.in_range 4) by closed_range.
  assert (H5 : U64.in_range 5) by closed_range.
  assert (Hne : 4 <> pred64 (Next pr)) by (vm_compute; discriminate).
  assert (Heq : 5 = pred64 (Next pr)) by reflexivity.
  assert (Hlt : 2 < U64.MaxUint64) by reflexivity.
  destruct (C3_MaybeDecrTo_Probe 4 2 pr Hwf H4 H2 (or_introl eq_refl))
    as (_ & _ & _ & Hstale & _).
  destruct (C3_MaybeDecrTo_Probe 5 2 pr Hwf H5 H2 (or_introl eq_refl))
    as (_ & _ & _ & _ & Hgenuine).
  destruct (Hstale Hne) as (Hs1 & Hs2 & Hs3 & _).
  destruct (Hgenuine Heq) as (Hg1 & Hg2 & _ & _ & Hg3 & _).
  exact (conj (conj Hs1 (conj Hs2 Hs3)) (conj Hg1 (conj (Hg2 Hlt) Hg3))).
Defined.

(** ** State transitions *)

Lemma BecomeProbe_unfold pr :
  wf pr ->
  BecomeProbe pr =
    set_Next
      (if State pr =? StateSnapshot
       then Z.max (succ64 (Match pr)) (succ64 (PendingSnapshot pr))
       else succ64 (Match pr))
      (ResetState StateProbe pr).
Proof.
  intros (Hm & _ & _ & Hp). unfold BecomeProbe.
  destruct (State pr =? StateSnapshot); cbv zeta.
  - rewrite max_Zmax. simpl Match.
    rewrite (U64_add_1 _ Hm), (U64_add_1 _ Hp). reflexivity.
  - simpl Match. rewrite (U64_add_1 _ Hm). reflexivity.
Qed.

Lemma BecomeReplicate_unfold pr :
  wf pr ->
  BecomeReplicate pr
    = set_Next (succ64 (Match pr)) (ResetState StateReplicate pr).
Proof.
  intros (Hm & _). unfold BecomeReplicate. cbv zeta. simpl Match.
  rewrite (U64_add_1 _ Hm). reflexivity.
Qed.

(** C4, as the claim words it, fails when [Match] is the largest index:
    [Match + 1] wraps and probing restarts at 0. *)
Lemma C4_BecomeProbe_counterexample :
  let pr :=
    mkProgress U64.MaxUint64 0 StateReplicate 0 true false
               (Inflights.mk 4 []) false in
  wf pr /\ State pr <> StateSnapshot /\
  Next (BecomeProbe pr) = 0 /\
  Next (BecomeProbe pr) <> Match pr + 1.
Proof. vm_compute. intuition discriminate. Qed.

(** C4 (amended): [BecomeProbe] sets [State = StateProbe]; from
    [StateSnapshot] it sets [Next] to the maximum of the 64-bit successors
    of [Match] and of the [PendingSnapshot] held before the reset, from
    any other state to the 64-bit successor of [Match]; these are
    [max(Match + 1, p + 1)] and [Match + 1] whenever [Match] and [p] are
    below [MaxUint64].  From [StateSnapshot] with [PendingSnapshot = 10]
    and [Match = 3] the result has [Next = 11]. *)
Theorem C4_BecomeProbe_spec (pr : Progress) :
  wf pr ->
  State (BecomeProbe pr) = StateProbe /\
  (State pr = StateSnapshot ->
     Next (BecomeProbe pr)
       = Z.max (succ64 (Match pr)) (succ64 (PendingSnapshot pr)) /\
     (Match pr < U64.MaxUint64 -> PendingSnapshot pr < U64.MaxUint64 ->
        Next (BecomeProbe pr)
          = Z.max (Match pr + 1) (PendingSnapshot pr + 1)) /\
     (PendingSnapshot pr = 10 -> Match pr = 3 ->
        Next (BecomeProbe pr) = 11)) /\
  (State pr <> StateSnapshot ->
     Next (BecomeProbe pr) = succ64 (Match pr) /\
     (Match pr < U64.MaxUint64 -> Next (BecomeProbe pr) = Match pr + 1)).
Proof.
  intros Hwf. rewrite (BecomeProbe_unfold pr Hwf). simpl.
  split; [reflexivity|]. split.
  - intros ->. simpl. split; [reflexivity|]. split.
    + intros. u64_arith.
    + intros -> ->. reflexivity.
  - intros Hne. destruct (Z.eqb_spec (State pr) StateSnapshot); [contradiction|].
    split; [reflexivity|]. intros. u64_arith.
Qed.

Lemma C4_BecomeProbe_witness :
  let pr :=
    mkProgress 3 4 StateSnapshot 10 true false (Inflights.mk 4 []) false in
  Next (BecomeProbe pr) = 11.
Proof.
  cbv zeta.
  set (pr := mkProgress 3 4 StateSnapshot 10 true false
                        (Inflights.mk 4 []) false).
  assert (Hwf : wf pr) by closed_range.
  exact (proj2 (proj2 (proj1 (proj2 (C4_BecomeProbe_spec pr Hwf)) eq_refl))
               eq_refl eq_refl).
Defined.

(** ** IsPaused *)

(** C5: [IsPaused] returns [ProbeSent] in [StateProbe], whether the
    inflight window is full in [StateReplicate], true in [StateSnapshot],
    and panics, returning no value, on every other state. *)
Theorem C5_IsPaused_spec (pr : Progress) :
  (State pr = StateProbe -> IsPaused pr = Ok (ProbeSent pr)) /\
  (State pr = StateReplicate ->
     IsPaused pr = Ok (Inflights.Full (Inflights pr))) /\
  (State pr = StateSnapshot -> IsPaused pr = Ok true) /\
  (~ recognized (State pr) -> IsPaused pr = Panic "unexpected state").
Proof.
  unfold IsPaused, recognized.
  repeat split.
  - intros ->. reflexivity.
  - intros ->. reflexivity.
  - intros ->. reflexivity.
  - intros Hnr.
    destruct (Z.eqb_spec (State pr) StateProbe); [tauto|].
    destruct (Z.eqb_spec (State pr) StateReplicate); [tauto|].
    destruct (Z.eqb_spec (State pr) StateSnapshot); [tauto|].
    reflexivity.
Qed.

(** [IsPaused] on concrete values, one per case. *)
Example IsPaused_cases :
  let w := Inflights.mk 2 [5; 6] in
  IsPaused (mkProgress 3 7 StateProbe 0 true true w false) = Ok true /\
  IsPaused (mkProgress 3 7 StateProbe 0 true false w false) = Ok false /\
  IsPaused (mkProgress 3 7 StateReplicate 0 true false w false) = Ok true /\
  IsPaused (mkProgress 3 7 StateReplicate 0 true true (Inflights.mk 3 [5; 6]) false)
    = Ok false /\
  IsPaused (mkProgress 3 7 StateSnapshot 0 true false (Inflights.mk 3 []) false)
    = Ok true /\
  IsPaused (mkProgress 3 7 3 0 true false w false) = Panic "unexpected state".
Proof. repeat split. Qed.

(** C7, as the claim words it, fails when [Match] is the largest index:
    [Match + 1] wraps and [Next] becomes 0. *)
Lemma C7_BecomeReplicate_counterexample :
  let pr :=
    mkProgress U64.MaxUint64 0 StateProbe 0 true false
               (Inflights.mk 4 []) false in
  wf pr /\
  Next (BecomeReplicate pr) = 0 /\
  Next (BecomeReplicate pr) <> Match (BecomeReplicate pr) + 1.
Proof. vm_compute. intuition discriminate. Qed.

(** C7 (amended): [BecomeReplicate], from any state, leaves
    [State = StateReplicate], [ProbeSent = false], [PendingSnapshot = 0],
    an empty inflight window, [Match] as it was, and [Next] the 64-bit
    successor of [Match]: [Match + 1] whenever [Match < MaxUint64] (0 at
    [Match = MaxUint64]); with [Match = 7] the result has [Next = 8]. *)
Theorem C7_BecomeReplicate_spec (pr : Progress) :
  wf pr ->
  let pr' := BecomeReplicate pr in
  State pr' = StateReplicate /\
  Match pr' = Match pr /\
  Next pr' = succ64 (Match pr') /\
  (Match pr < U64.MaxUint64 -> Next pr' = Match pr' + 1) /\
  (Match pr = U64.MaxUint64 -> Next pr' = 0) /\
  (Match pr = 7 -> Next pr' = 8) /\
  ProbeSent pr' = false /\
  PendingSnapshot pr' = 0 /\
  Inflights pr' = Inflights.reset (Inflights pr) /\
  Inflights.Count (Inflights pr') = 0 /\
  Inflights.buffer (Inflights pr') = [].
Proof.
  intros Hwf. cbv zeta. rewrite (BecomeReplicate_unfold pr Hwf). simpl.
  repeat split; try (intros; u64_arith; fail).
  intros ->. reflexivity.
Qed.

Lemma C7_BecomeReplicate_witness :
  let pr :=
    mkProgress 7 20 StateSnapshot 12 true true
               (Inflights.mk 2 [15; 19]) false in
  Next (BecomeReplicate pr) = 8.
Proof.
  cbv zeta.
  set (pr := mkProgress 7 20 StateSnapshot 12 true true
                        (Inflights.mk 2 [15; 19]) false).
  assert (Hwf : wf pr) by closed_range.
  destruct (C7_BecomeReplicate_spec pr Hwf)
    as (_ & _ & _ & _ & _ & H7 & _).
  exact (H7 eq_refl).
Defined.

(** ** Sequences of acknowledgements *)

Lemma MaybeUpdate_Match_mono n pr : Match pr <= Match (MaybeUpdate n pr).2.
Proof.
  unfold MaybeUpdate. destruct (Z.ltb_spec (Match pr) n); simpl; lia.
Qed.

(** One acknowledgement below [MaxUint64] keeps [Next] ahead of [Match]. *)
Lemma MaybeUpdate_Next_ahead n pr :
  wf pr -> U64.in_range n -> n < U64.MaxUint64 ->
  Match pr + 1 <= Next pr ->
  Match (MaybeUpdate n pr).2 + 1 <= Next (MaybeUpdate n pr).2.
Proof.
  intros Hwf Hn Hlt Hinv. rewrite (MaybeUpdate_unfold n pr Hn).
  destruct (Z.ltb_spec (Match pr) n); simpl; u64_arith.
Qed.

Lemma MaybeUpdate_trace_length ns pr :
  length (MaybeUpdate_trace ns pr) = length ns.
Proof.
  revert pr. induction ns as [|n ns IH]; intros pr; simpl;
    [reflexivity | f_equal; apply IH].
Qed.

Lemma MaybeUpdate_trace_Match_ge ns : forall pr after,
  after ∈ MaybeUpdate_trace ns pr -> Match pr <= Match after.
Proof.
  induction ns as [|n ns IH]; intros pr after Hin; simpl in Hin.
  - inversion Hin.
  - pose proof (MaybeUpdate_Match_mono n pr) as Hstep.
    apply elem_of_cons in Hin as [-> | Hin]; [exact Hstep|].
    specialize (IH _ _ Hin). lia.
Qed.

Lemma MaybeUpdate_trace_mono ns : forall pr i j a b,
  (i <= j)%nat ->
  (pr :: MaybeUpdate_trace ns pr) !! i = Some a ->
  (pr :: MaybeUpdate_trace ns pr) !! j = Some b ->
  Match a <= Match b.
Proof.
  induction ns as [|n ns IH]; intros pr i j a b Hij Hi Hj.
  - destruct i as [|i], j as [|j]; simpl in Hi, Hj;
      try rewrite lookup_nil in Hi; try rewrite lookup_nil in Hj;
      try discriminate; try lia.
    simplify_eq. lia.
  - destruct i as [|i].
    + simpl in Hi. injection Hi as <-.
      destruct j as [|j]; simpl in Hj; [injection Hj as <-; lia|].
      apply (MaybeUpdate_trace_Match_ge (n :: ns) pr b).
      eapply list_elem_of_lookup_2, Hj.
    + destruct j as [|j]; [lia|]. simpl in Hi, Hj.
      apply (IH (MaybeUpdate n pr).2 i j a b); [lia | exact Hi | exact Hj].
Qed.

Lemma MaybeUpdate_trace_Next_ahead ns : forall pr,
  wf pr -> Forall U64.in_range ns ->
  Forall (fun n => n < U64.MaxUint64) ns ->
  Match pr + 1 <= Next pr ->
  Forall (fun after => Match after + 1 <= Next after)
         (MaybeUpdate_trace ns pr).
Proof.
  induction ns as [|n ns IH]; intros pr Hwf Hr Hlt Hinv; simpl.
  - constructor.
  - apply Forall_cons in Hr as [Hn Hr]. apply Forall_cons in Hlt as [Hnlt Hlt].
    constructor.
    + apply MaybeUpdate_Next_ahead; assumption.
    + apply IH; try assumption.
      * apply MaybeUpdate_wf; assumption.
      * apply MaybeUpdate_Next_ahead; assumption.
Qed.

(** C6, as the claim words it, fails for the index [MaxUint64]: after that
    acknowledgement [Match] is [MaxUint64] and [Next] is still 1. *)
Lemma C6_MaybeUpdate_sequence_counterexample :
  let pr := mkProgress 0 1 StateProbe 0 true false (Inflights.mk 4 []) false in
  let ns := [U64.MaxUint64] in
  let after :=
    mkProgress U64.MaxUint64 1 StateProbe 0 true false
               (Inflights.mk 4 []) false in
  wf pr /\ Forall U64.in_range ns /\ Match pr + 1 <= Next pr /\
  MaybeUpdate_trace ns pr = [after] /\
  ~ (Match after + 1 <= Next after).
Proof.
  cbv zeta. split; [closed_range|]. split.
  - constructor; [closed_range | constructor].
  - split; [closed_range|]. split; [reflexivity|].
    vm_compute. intros H. apply H. reflexivity.
Qed.

(** C6 (amended): from a [Progress] with [Next >= Match + 1], along every
    finite sequence of [MaybeUpdate] calls [Match] never decreases, for
    arbitrary indices; and when every index of the sequence is below
    [MaxUint64], [Next >= Match + 1] holds after every call. *)
Theorem C6_MaybeUpdate_sequence (ns : list Z) (pr : Progress) :
  wf pr -> Forall U64.in_range ns -> Match pr + 1 <= Next pr ->
  let trace := pr :: MaybeUpdate_trace ns pr in
  length trace = S (length ns) /\
  (forall i j a b,
     (i <= j)%nat -> trace !! i = Some a -> trace !! j = Some b ->
     Match a <= Match b) /\
  (Forall (fun n => n < U64.MaxUint64) ns ->
   forall after, after ∈ trace -> Match after + 1 <= Next after).
Proof.
  intros Hwf Hr Hinv. cbv zeta. split; [|split].
  - simpl. f_equal. apply MaybeUpdate_trace_length.
  - apply MaybeUpdate_trace_mono.
  - intros Hlt after Hin.
    apply elem_of_cons in Hin as [-> | Hin]; [exact Hinv|].
    pose proof (MaybeUpdate_trace_Next_ahead ns pr Hwf Hr Hlt Hinv) as Hall.
    rewrite Forall_forall in Hall. apply Hall, Hin.
Qed.

Lemma C6_MaybeUpdate_sequence_witness :
  let pr := mkProgress 2 3 StateProbe 0 true true (Inflights.mk 4 []) false in
  let ns := [5; 1; 9; 9; 4] in
  Forall (fun after => Match after + 1 <= Next after)
         (pr :: MaybeUpdate_trace ns pr).
Proof.
  cbv zeta.
  set (pr := mkProgress 2 3 StateProbe 0 true true (Inflights.mk 4 []) false).
  assert (Hwf : wf pr) by closed_range.
  assert (Hr : Forall U64.in_range [5; 1; 9; 9; 4])
    by (repeat constructor; discriminate).
  assert (Hlt : Forall (fun n => n < U64.MaxUint64) [5; 1; 9; 9; 4])
    by (repeat constructor).
  assert (Hinv : Match pr + 1 <= Next pr) by discriminate.
  apply Forall_forall.
  exact (proj2 (proj2 (C6_MaybeUpdate_sequence _ pr Hwf Hr Hinv)) Hlt).
Defined.

(** ** The round trip through the three states *)

Lemma BecomeSnapshot_fields i pr :
  BecomeSnapshot i pr =
    mkProgress (Match pr) (Next pr) StateSnapshot i (RecentActive pr) false
               (Inflights.reset (Inflights pr)) (IsLearner pr).
Proof. reflexivity. Qed.

Lemma BecomeProbe_wf pr : wf pr -> wf (BecomeProbe pr).
Proof.
  intros Hwf. rewrite (BecomeProbe_unfold pr Hwf).
  destruct Hwf as (Hm & Hn & Hs & Hp).
  pose proof (succ64_in_range _ Hm). pose proof (succ64_in_range _ Hp).
  unfold wf; simpl. destruct (State pr =? StateSnapshot); wf_arith.
Qed.

Lemma BecomeReplicate_wf pr : wf pr -> wf (BecomeReplicate pr).
Proof.
  intros Hwf. rewrite (BecomeReplicate_unfold pr Hwf).
  destruct Hwf as (Hm & Hn & Hs & Hp).
  pose proof (succ64_in_range _ Hm).
  unfold wf; simpl. wf_arith.
Qed.

Lemma BecomeSnapshot_wf i pr :
  U64.in_range i -> wf pr -> wf (BecomeSnapshot i pr).
Proof.
  intros Hi (Hm & Hn & Hs & Hp). rewrite BecomeSnapshot_fields.
  unfold wf; simpl. wf_arith.
Qed.

(** The round trip, field by field. *)
Lemma round_trip_fields pr :
  wf pr ->
  round_trip pr =
    mkProgress (Match pr) (Z.max (succ64 (Match pr)) 6) StateProbe 0
               (RecentActive pr) false
               (Inflights.reset (Inflights pr)) (IsLearner pr).
Proof.
  intros Hwf. unfold round_trip.
  assert (H5 : U64.in_range 5) by closed_range.
  pose proof (BecomeProbe_wf pr Hwf) as Hwf1.
  pose proof (BecomeReplicate_wf _ Hwf1) as Hwf2.
  pose proof (BecomeSnapshot_wf 5 _ H5 Hwf2) as Hwf3.
  rewrite (BecomeProbe_unfold _ Hwf3), BecomeSnapshot_fields.
  rewrite (BecomeReplicate_unfold _ Hwf1), (BecomeProbe_unfold _ Hwf).
  reflexivity.
Qed.

(** C8, as the claim words it, fails when [Match] is the largest index:
    the round trip ends with [Next = 6], far below [Match + 1]. *)
Lemma C8_round_trip_counterexample :
  let pr :=
    mkProgress U64.MaxUint64 0 StateProbe 0 true false
               (Inflights.mk 4 []) false in
  wf pr /\
  State (round_trip pr) = StateProbe /\
  Match (round_trip pr) = U64.MaxUint64 /\
  Next (round_trip pr) = 6 /\
  ~ (Match (round_trip pr) + 1 <= Next (round_trip pr)).
Proof.
  cbv zeta. split; [closed_range|]. do 3 (split; [reflexivity|]).
  vm_compute. intros H. apply H. reflexivity.
Qed.

(** C8 (amended): the sequence [BecomeProbe; BecomeReplicate;
    BecomeSnapshot(5); BecomeProbe], from any [Progress], ends with
    [State = StateProbe] and [PendingSnapshot = 0], and, when the starting
    [Match] is below [MaxUint64], with [Next >= Match + 1]. *)
Theorem C8_round_trip (pr : Progress) :
  wf pr ->
  State (round_trip pr) = StateProbe /\
  PendingSnapshot (round_trip pr) = 0 /\
  Match (round_trip pr) = Match pr /\
  (Match pr < U64.MaxUint64 ->
     Match (round_trip pr) + 1 <= Next (round_trip pr)).
Proof.
  intros Hwf. rewrite (round_trip_fields pr Hwf). simpl.
  repeat split. intros Hlt. u64_arith.
Qed.

Lemma C8_round_trip_witness :
  let pr :=
    mkProgress 8 3 StateReplicate 2 false true (Inflights.mk 1 [9]) true in
  State (round_trip pr) = StateProbe /\
  PendingSnapshot (round_trip pr) = 0 /\
  Match (round_trip pr) + 1 <= Next (round_trip pr).
Proof.
  cbv zeta.
  set (pr := mkProgress 8 3 StateReplicate 2 false true
                        (Inflights.mk 1 [9]) true).
  assert (Hwf : wf pr) by closed_range.
  destruct (C8_round_trip pr Hwf) as (Hs & Hp & _ & Hinv).
  exact (conj Hs (conj Hp (Hinv eq_refl))).
Defined.

(** ** Rejections never move [Next] forward *)

(** C10: for a [Progress] with [Next >= 1] and [Next >= Match + 1], in
    every state and for every rejected index and hint, [Next] after
    [MaybeDecrTo] is at most [Next] before it, whether the call returns
    true or false. *)
Theorem C10_MaybeDecrTo_Next_le (rejected matchHint : Z) (pr : Progress) :
  wf pr -> U64.in_range rejected -> U64.in_range matchHint ->
  1 <= Next pr -> Match pr + 1 <= Next pr ->
  Next (MaybeDecrTo rejected matchHint pr).2 <= Next pr.
Proof.
  intros (Hm & Hn & _ & _) Hr Hh Hpos Hinv.
  rewrite (MaybeDecrTo_unfold _ _ _ Hn Hm Hh).
  destruct (State pr =? StateReplicate).
  - destruct (Z.leb_spec rejected (Match pr)); simpl; u64_arith.
  - destruct (Z.eqb_spec (pred64 (Next pr)) rejected); simpl; u64_arith.
Qed.

Lemma C10_MaybeDecrTo_Next_le_witness :
  let pr := mkProgress 4 9 StateProbe 0 true true (Inflights.mk 4 []) false in
  Next (MaybeDecrTo 8 6 pr).2 <= Next pr.
Proof.
  cbv zeta.
  set (pr := mkProgress 4 9 StateProbe 0 true true (Inflights.mk 4 []) false).
  assert (Hwf : wf pr) by closed_range.
  assert (H8 : U64.in_range 8) by closed_range.
  assert (H6 : U64.in_range 6) by closed_range.
  assert (Hpos : 1 <= Next pr) by discriminate.
  assert (Hinv : Match pr + 1 <= Next pr) by discriminate.
  exact (C10_MaybeDecrTo_Next_le 8 6 pr Hwf H8 H6 Hpos Hinv).
Defined.

(** ** A probe, a rejection, an acknowledgement, then replication *)

(** The scenario of the spec: a peer starts in [StateProbe] with
    [Match = 0] and [Next = 1]; index 1 is sent, rejected with hint 0,
    sent again and acknowledged; the peer then moves to
    [StateReplicate]. *)
Example end_to_end_scenario :
  let p0 := mkProgress 0 1 StateProbe 0 true false (Inflights.mk 4 []) false in
  let p1 := OptimisticUpdate 1 p0 in
  let rejection := MaybeDecrTo 1 0 p1 in
  let ack := MaybeUpdate 1 (snd rejection) in
  let p4 := BecomeReplicate (snd ack) in
  Next p1 = 2 /\
  fst rejection = true /\ Next (snd rejection) = 1 /\
  ProbeSent (snd rejection) = false /\
  fst ack = true /\ Match (snd ack) = 1 /\ Next (snd ack) = 2 /\
  State p4 = StateReplicate /\ Next p4 = 2 /\
  Inflights.Count (Inflights p4) = 0.
Proof. vm_compute. repeat split. Qed.

(** ** Texts *)

Lemma append_cons a s t : String a s +:+ t = String a (s +:+ t).
Proof. reflexivity. Qed.

Lemma append_nil_r s : s +:+ EmptyString = s.
Proof.
  induction s as [|a s IH]; [reflexivity|].
  rewrite append_cons, IH. reflexivity.
Qed.

Lemma append_assoc s t u : (s +:+ t) +:+ u = s +:+ (t +:+ u).
Proof.
  induction s as [|a s IH]; [reflexivity|].
  rewrite !append_cons, IH. reflexivity.
Qed.

Lemma count_char_app c s t :
  count_char c (s +:+ t) = (count_char c s + count_char c t)%nat.
Proof.
  induction s as [|a s IH]; [reflexivity|].
  rewrite append_cons. simpl. rewrite IH. lia.
Qed.

(** Decimal digits hold no line end. *)
Lemma count_lines_digits d : count_lines (NilEmpty.string_of_uint d) = 0%nat.
Proof. induction d; simpl; try reflexivity; exact IHd. Qed.

Lemma count_lines_fmt_d z : count_lines (fmt_d z) = 0%nat.
Proof.
  unfold fmt_d, NilZero.string_of_uint.
  destruct (N.to_uint (Z.to_N z)); try reflexivity;
    apply (count_lines_digits (_ _)).
Qed.

Lemma count_lines_app s t :
  count_lines (s +:+ t) = (count_lines s + count_lines t)%nat.
Proof. apply count_char_app. Qed.

Lemma count_lines_flag b s :
  count_lines s = 0%nat -> count_lines (flag b s) = 0%nat.
Proof. intros H. destruct b; [exact H | reflexivity]. Qed.

(** A conditional write to the builder appends a flag. *)
Lemma cond_append (b : bool) buf s :
  (if b then buf +:+ s else buf) = buf +:+ flag b s.
Proof. destruct b; simpl; [reflexivity | symmetry; apply append_nil_r]. Qed.

Lemma foldl_append {A} (f : A -> string) l : forall acc,
  foldl (fun buf x => buf +:+ f x) acc l = acc +:+ concat_lines (f <$> l).
Proof.
  induction l as [|x l IH]; intros acc; simpl.
  - symmetry. apply append_nil_r.
  - rewrite IH, append_assoc. reflexivity.
Qed.

Lemma count_lines_concat (ls : list string) :
  Forall (fun l => count_lines l = 1%nat) ls ->
  count_lines (concat_lines ls) = length ls.
Proof.
  induction 1 as [|l ls Hl _ IH]; [reflexivity|].
  simpl. rewrite count_lines_app, Hl, IH. reflexivity.
Qed.

(** ** Progress.String *)

Lemma recognized_cases st :
  recognized st ->
  StateType_String st = Ok (state_name st).
Proof. intros [-> | [-> | ->]]; reflexivity. Qed.

Lemma IsPaused_recognized pr :
  recognized (State pr) -> IsPaused pr = Ok (paused pr).
Proof.
  unfold IsPaused, paused. intros [-> | [-> | ->]]; reflexivity.
Qed.

(** On a recognized state the method returns the text the spec describes. *)
Lemma Progress_String_render pr :
  wf pr -> recognized (State pr) ->
  Progress_String pr = Ok (render_Progress pr).
Proof.
  intros (_ & _ & _ & Hp) Hst. unfold Progress_String, render_Progress, fmt_s.
  rewrite (recognized_cases _ Hst), (IsPaused_recognized _ Hst). simpl bind.
  assert (Hpend : (PendingSnapshot pr >? 0) = negb (PendingSnapshot pr =? 0)).
  { unfold U64.in_range in Hp.
    destruct (Z.gtb_spec (PendingSnapshot pr) 0),
             (Z.eqb_spec (PendingSnapshot pr) 0); simpl; lia. }
  assert (Hcount : (Inflights.Count (Inflights pr) >? 0)
                   = negb (Inflights.Count (Inflights pr) =? 0)).
  { unfold Inflights.Count.
    destruct (Z.gtb_spec (Z.of_nat (length (Inflights.buffer (Inflights pr)))) 0),
             (Z.eqb_spec (Z.of_nat (length (Inflights.buffer (Inflights pr)))) 0);
      simpl; lia. }
  rewrite Hpend, Hcount. cbv zeta.
  rewrite !cond_append.
  f_equal.
  destruct (negb (Inflights.Count (Inflights pr) =? 0)); unfold flag at 1;
    rewrite !append_assoc, ?append_nil_r; reflexivity.
Qed.

(** ** sort.Slice *)

Lemma sort_insert_Permutation less x l : sort_insert less x l ≡ₚ x :: l.
Proof.
  induction l as [|y l IH]; simpl; [reflexivity|].
  destruct (less x y); [reflexivity|].
  rewrite IH. apply Permutation_swap.
Qed.

Lemma sort_Slice_Permutation less l : sort_Slice less l ≡ₚ l.
Proof.
  induction l as [|x l IH]; simpl; [reflexivity|].
  unfold sort_Slice in *. simpl. rewrite sort_insert_Permutation, IH.
  reflexivity.
Qed.

Lemma sort_insert_Sorted x l :
  Sorted Z.le l -> Sorted Z.le (sort_insert Z.ltb x l).
Proof.
  induction 1 as [|y l Hs IH Hhd]; simpl.
  - repeat constructor.
  - destruct (Z.ltb_spec x y) as [Hlt|Hge].
    + constructor; [constructor; assumption|]. constructor. lia.
    + constructor; [exact IH|].
      destruct Hhd as [|z l' Hyz]; simpl.
      * constructor. exact Hge.
      * destruct (Z.ltb_spec x z); constructor; lia.
Qed.

Lemma sort_Slice_Sorted l : Sorted Z.le (sort_Slice Z.ltb l).
Proof.
  induction l as [|x l IH]; [constructor|].
  apply sort_insert_Sorted, IH.
Qed.

(** A list in ascending order without repetition is strictly ascending. *)
Lemma StronglySorted_le_lt (l : list Z) :
  StronglySorted Z.le l -> NoDup l -> StronglySorted Z.lt l.
Proof.
  induction 1 as [|x l Hs IH Hall]; intros Hnd; [constructor|].
  apply NoDup_cons in Hnd as [Hnotin Hnd].
  constructor; [apply IH, Hnd|].
  rewrite Forall_forall in Hall |- *. intros y Hy.
  specialize (Hall y Hy).
  assert (x <> y) by (intros ->; contradiction). lia.
Qed.

Lemma range_append (ks : list Z) :
  foldl (fun ids k => ids ++ [k]) [] ks = ks.
Proof.
  enough (H : forall acc : list Z,
             foldl (fun ids (k : Z) => ids ++ [k]) acc ks = acc ++ ks)
    by apply H.
  induction ks as [|k ks IH]; intros acc; simpl.
  - symmetry. apply app_nil_r.
  - rewrite IH, <- app_assoc. reflexivity.
Qed.

(** ** The table in id order *)

#[local] Instance id_le_trans : Transitive id_le.
Proof. intros a b c. unfold id_le. lia. Qed.

#[local] Instance id_le_total : Total id_le.
Proof. intros a b. unfold id_le. lia. Qed.

Lemma ascending_entries_Permutation (m : ProgressMap) :
  ascending_entries m ≡ₚ map_to_list m.
Proof. apply merge_sort_Permutation. Qed.


Lemma ascending_entries_ids_Permutation (m : ProgressMap) :
  (ascending_entries m).*1 ≡ₚ (map_to_list m).*1.
Proof. apply fmap_Permutation, ascending_entries_Permutation. Qed.

Lemma ascending_entries_le (m : ProgressMap) :
  StronglySorted Z.le (ascending_entries m).*1.
Proof.
  apply (StronglySorted_fmap fst id_le Z.le).
  - intros a b Hab. exact Hab.
  - apply StronglySorted_merge_sort; apply _.
Qed.

Lemma ascending_entries_lt (m : ProgressMap) :
  StronglySorted Z.lt (ascending_entries m).*1.
Proof.
  apply StronglySorted_le_lt; [apply ascending_entries_le|].
  rewrite ascending_entries_ids_Permutation. apply NoDup_fst_map_to_list.
Qed.

(** Every order of the [range] loop holds the ids of the table. *)
Lemma range_order_Permutation (m : ProgressMap) ks :
  range_order m ks -> ks ≡ₚ (map_to_list m).*1.
Proof.
  intros [Hnd Hin]. apply NoDup_Permutation;
    [exact Hnd | apply NoDup_fst_map_to_list |].
  intros k. rewrite Hin. rewrite list_elem_of_fmap. split.
  - intros [pr Hpr]. exists (k, pr). split; [reflexivity|].
    apply elem_of_map_to_list, Hpr.
  - intros ([k' pr] & -> & He). exists pr.
    apply elem_of_map_to_list, He.
Qed.

(** Sorting the ids of any [range] order gives the ids in ascending order. *)
Lemma sorted_ids (m : ProgressMap) ks :
  range_order m ks ->
  sort_Slice Z.ltb ks = (ascending_entries m).*1.
Proof.
  intros Hks. apply (StronglySorted_unique Z.le).
  - apply Sorted_StronglySorted; [apply _ | apply sort_Slice_Sorted].
  - apply ascending_entries_le.
  - rewrite sort_Slice_Permutation, ascending_entries_ids_Permutation.
    apply range_order_Permutation, Hks.
Qed.

(** ** ProgressMap.String *)

Lemma append_nil_l s : EmptyString +:+ s = s.
Proof. reflexivity. Qed.

(** The line written for an entry of the table. *)
Lemma entry_line (m : ProgressMap) e :
  wf e.2 -> recognized (State e.2) -> m !! e.1 = Some e.2 ->
  fmt_d e.1 +:+ ": " +:+ fmt_s_entry (m !! e.1) +:+ newline = render_line e.
Proof.
  intros Hwf Hst ->. unfold fmt_s_entry, fmt_s, render_line.
  rewrite (Progress_String_render _ Hwf Hst). reflexivity.
Qed.

Lemma count_lines_state_name st : count_lines (state_name st) = 0%nat.
Proof.
  unfold state_name.
  destruct (st =? StateProbe); [reflexivity|].
  destruct (st =? StateReplicate); reflexivity.
Qed.



(** The rendering of a table, on concrete values: ids 5, 11, 2 come out
    as 2, 5, 11. *)
Example ProgressMap_String_example :
  ProgressMap_String example_table [5; 11; 2] =
    concat_lines
      [ "2: StateReplicate match=3 next=4 inflight=1" +:+ newline;
        "5: StateSnapshot match=3 next=7 learner paused pendingSnap=10 inactive inflight=2[full]"
          +:+ newline;
        "11: StateProbe match=0 next=1" +:+ newline ].
Proof. vm_compute. reflexivity. Qed.




Lemma example_table_range_order : range_order example_table [5; 11; 2].
Proof.
  split.
  - repeat constructor; rewrite ?elem_of_cons, ?elem_of_nil; intuition lia.
  - intros k. unfold example_table. split.
    + rewrite !elem_of_cons, elem_of_nil.
      intros [-> | [-> | [-> | []]]]; eexists; reflexivity.
    + intros Hk.
      destruct (decide (k = 5)) as [-> | H5]; [set_solver|].
      rewrite lookup_insert_ne in Hk by congruence.
      destruct (decide (k = 2)) as [-> | H2]; [set_solver|].
      rewrite lookup_insert_ne in Hk by congruence.
      destruct (decide (k = 11)) as [-> | H11]; [set_solver|].
      rewrite lookup_insert_ne, lookup_empty in Hk by congruence.
      destruct Hk as [? Hk]. discriminate Hk.
Defined.



(** * Further properties of the package *)

(** ** state.go: the names of the states *)

Lemma prstmap_lookup_ge st :
  3 <= st -> prstmap !! Z.to_nat st = None.
Proof.
  intros H. apply lookup_ge_None_2. simpl. lia.
Qed.

Lemma StateType_String_Ok_recognized st s :
  StateType_String st = Ok s -> recognized st.
Proof.
  unfold StateType_String, recognized, StateProbe, StateReplicate,
    StateSnapshot.
  destruct (Z.ltb_spec st 0) as [Hneg|Hpos]; [discriminate|].
  destruct (Z_lt_le_dec st 3) as [Hlt|Hge].
  - intros _. lia.
  - rewrite (prstmap_lookup_ge st Hge). discriminate.
Qed.

Lemma StateType_String_unrecognized st :
  ~ recognized st ->
  StateType_String st
    = Panic ("runtime error: index out of range [" +:+ fmt_d st
               +:+ "] with length 3").
Proof.
  intros Hnr. unfold StateType_String.
  destruct (Z.ltb_spec st 0) as [Hneg|Hpos]; [reflexivity|].
  destruct (Z_lt_le_dec st 3) as [Hlt|Hge].
  - exfalso. apply Hnr.
    unfold recognized, StateProbe, StateReplicate, StateSnapshot. lia.
  - rewrite (prstmap_lookup_ge st Hge). reflexivity.
Qed.

(** [StateType.String] returns a name exactly for the three states of
    [state.go]; on every other value it panics with the run-time error
    [index out of range [st] with length 3]; distinct states have distinct
    names. *)
Theorem StateType_String_named (st1 st2 : StateType) :
  ((exists s, StateType_String st1 = Ok s) <-> recognized st1) /\
  (~ recognized st1 <-> exists msg, StateType_String st1 = Panic msg) /\
  StateType_String StateProbe = Ok "StateProbe" /\
  StateType_String StateReplicate = Ok "StateReplicate" /\
  StateType_String StateSnapshot = Ok "StateSnapshot" /\
  (forall s, StateType_String st1 = Ok s -> StateType_String st2 = Ok s ->
             st1 = st2) /\
  (~ recognized st1 ->
     StateType_String st1
       = Panic ("runtime error: index out of range [" +:+ fmt_d st1
                  +:+ "] with length 3")) /\
  StateType_String 3 = Panic "runtime error: index out of range [3] with length 3".
Proof.
  split; [|split; [|split; [|split; [|split; [|split; [|split]]]]]];
    try reflexivity.
  - split.
    + intros [s Hs]. exact (StateType_String_Ok_recognized _ _ Hs).
    + intros Hr. exists (state_name st1). apply recognized_cases, Hr.
  - split.
    + intros Hnr. eexists. apply StateType_String_unrecognized, Hnr.
    + intros [msg Hmsg] Hr. rewrite (recognized_cases _ Hr) in Hmsg.
      discriminate.
  - intros s H1 H2.
    pose proof (StateType_String_Ok_recognized _ _ H1) as Hr1.
    pose proof (StateType_String_Ok_recognized _ _ H2) as Hr2.
    rewrite (recognized_cases _ Hr1) in H1.
    rewrite (recognized_cases _ Hr2) in H2.
    injection H1 as <-. injection H2 as H2.
    destruct Hr1 as [-> | [-> | ->]], Hr2 as [-> | [-> | ->]];
      try reflexivity; discriminate.
  - apply StateType_String_unrecognized.
Qed.

(** ** Progress.String on every state *)

Lemma IsPaused_unrecognized pr :
  ~ recognized (State pr) -> IsPaused pr = Panic "unexpected state".
Proof.
  unfold IsPaused, recognized. intros Hnr.
  destruct (Z.eqb_spec (State pr) StateProbe); [tauto|].
  destruct (Z.eqb_spec (State pr) StateReplicate); [tauto|].
  destruct (Z.eqb_spec (State pr) StateSnapshot); [tauto|].
  reflexivity.
Qed.

Lemma recognized_or_not st : recognized st \/ ~ recognized st.
Proof.
  unfold recognized.
  destruct (Z.eq_dec st StateProbe); [tauto|].
  destruct (Z.eq_dec st StateReplicate); [tauto|].
  destruct (Z.eq_dec st StateSnapshot); tauto.
Qed.

Lemma Progress_String_recognized pr :
  recognized (State pr) -> exists s, Progress_String pr = Ok s.
Proof.
  intros Hr. unfold Progress_String.
  rewrite (IsPaused_recognized _ Hr). simpl. eexists. reflexivity.
Qed.

Lemma Progress_String_unrecognized pr :
  ~ recognized (State pr) -> Progress_String pr = Panic "unexpected state".
Proof.
  intros Hnr. unfold Progress_String.
  rewrite (IsPaused_unrecognized pr Hnr). reflexivity.
Qed.

(** [Progress.String] returns a text exactly on the three named states;
    on every other state it panics with the message of [IsPaused], and the
    text written so far is lost. *)
Theorem Progress_String_panics_iff (pr : Progress) :
  (recognized (State pr) -> exists s, Progress_String pr = Ok s) /\
  (~ recognized (State pr) -> Progress_String pr = Panic "unexpected state") /\
  ((exists s, Progress_String pr = Ok s) <-> recognized (State pr)).
Proof.
  split; [apply Progress_String_recognized|].
  split; [apply Progress_String_unrecognized|].
  split; [|apply Progress_String_recognized].
  intros [s Hs]. destruct (recognized_or_not (State pr)) as [Hr|Hnr];
    [exact Hr|].
  rewrite (Progress_String_unrecognized pr Hnr) in Hs. discriminate.
Qed.

(** ** ProgressMap.String on every table *)

Lemma range_order_Permutation_2 (m : ProgressMap) ks ks' :
  range_order m ks -> ks ≡ₚ ks' -> range_order m ks'.
Proof.
  intros [Hnd Hin] Hp. split.
  - rewrite <- Hp. exact Hnd.
  - intros k. rewrite <- Hp. apply Hin.
Qed.

Lemma range_order_empty ks : range_order (∅ : ProgressMap) ks -> ks = [].
Proof.
  intros [_ Hin]. destruct ks as [|k ks]; [reflexivity|].
  assert (Hk : k ∈ k :: ks) by (apply elem_of_cons; left; reflexivity).
  apply Hin in Hk. rewrite lookup_empty in Hk.
  destruct Hk as [? Hk]. discriminate Hk.
Qed.

(** The output does not depend on the order in which the map is
    traversed, whatever the states of its entries; the empty table
    renders as the empty text. *)
Theorem ProgressMap_String_order_independent
  (m : ProgressMap) (ks ks' : list Z) :
  range_order m ks -> range_order m ks' ->
  ProgressMap_String m ks = ProgressMap_String m ks' /\
  (m = ∅ -> ProgressMap_String m ks = EmptyString).
Proof.
  intros Hks Hks'. split.
  - unfold ProgressMap_String. rewrite !range_append.
    change (fun a b : Z => a <? b) with Z.ltb.
    rewrite (sorted_ids m ks Hks), (sorted_ids m ks' Hks'). reflexivity.
  - intros ->. rewrite (range_order_empty ks Hks). reflexivity.
Qed.

Lemma example_table_range_order_2 : range_order example_table [2; 5; 11].
Proof.
  apply (range_order_Permutation_2 _ [5; 11; 2]);
    [exact example_table_range_order|].
  etransitivity; [apply perm_skip, Permutation_swap|].
  apply Permutation_swap.
Qed.

Lemma ProgressMap_String_order_independent_witness :
  ProgressMap_String example_table [5; 11; 2]
    = ProgressMap_String example_table [2; 5; 11].
Proof.
  exact (proj1 (ProgressMap_String_order_independent example_table
                  [5; 11; 2] [2; 5; 11]
                  example_table_range_order example_table_range_order_2)).
Defined.

Lemma count_lines_fmt_s_StateType st :
  count_lines (fmt_s StateType_String st) = 0%nat.
Proof.
  unfold fmt_s. destruct (StateType_String st) as [s|msg] eqn:Hs.
  - pose proof (StateType_String_Ok_recognized _ _ Hs) as Hr.
    rewrite (recognized_cases _ Hr) in Hs. injection Hs as <-.
    apply count_lines_state_name.
  - unfold StateType_String in Hs.
    destruct (if st <? 0 then None else prstmap !! Z.to_nat st);
      [discriminate|].
    injection Hs as <-.
    rewrite !count_lines_app, count_lines_fmt_d. reflexivity.
Qed.

(** The text [Progress.String] returns holds no line end. *)
Lemma count_lines_Progress_String pr s :
  Progress_String pr = Ok s -> count_lines s = 0%nat.
Proof.
  unfold Progress_String. destruct (IsPaused pr) as [paused|msg];
    [|discriminate].
  simpl bind. cbv zeta. rewrite !cond_append. intros Hs.
  injection Hs as <-.
  destruct (Inflights.Count (Inflights pr) >? 0);
    rewrite !count_lines_app, count_lines_fmt_s_StateType,
      !count_lines_fmt_d, !count_lines_flag;
    try reflexivity;
    rewrite ?count_lines_app, ?count_lines_fmt_d; reflexivity.
Qed.

Lemma count_lines_fmt_s_Progress pr :
  count_lines (fmt_s Progress_String pr) = 0%nat.
Proof.
  unfold fmt_s. destruct (Progress_String pr) as [s|msg] eqn:Hs.
  - exact (count_lines_Progress_String pr s Hs).
  - destruct (recognized_or_not (State pr)) as [Hr|Hnr].
    + destruct (Progress_String_recognized pr Hr) as [s' Hs'].
      congruence.
    + rewrite (Progress_String_unrecognized pr Hnr) in Hs.
      injection Hs as <-. reflexivity.
Qed.

(** The line of an entry as [ProgressMap.String] writes it. *)
Lemma table_line_unrecognized (m : ProgressMap) id pr :
  m !! id = Some pr -> ~ recognized (State pr) ->
  table_line m id
    = fmt_d id +:+ ": %!s(PANIC=String method: unexpected state)" +:+ newline.
Proof.
  intros Hm Hnr. unfold table_line, fmt_s_entry, fmt_s.
  rewrite Hm, (Progress_String_unrecognized pr Hnr). reflexivity.
Qed.

Lemma count_lines_table_line (m : ProgressMap) id :
  count_lines (table_line m id) = 1%nat.
Proof.
  unfold table_line, fmt_s_entry.
  rewrite !count_lines_app, count_lines_fmt_d.
  destruct (m !! id) as [pr|]; [rewrite count_lines_fmt_s_Progress|];
    reflexivity.
Qed.

(** Whatever the states of its entries, [ProgressMap.String] returns one
    line per follower, by follower id ascending: the panic of
    [Progress.String] on an unrecognized state is caught by [fmt] and
    written into that follower's line, and the other lines are kept. *)
Theorem ProgressMap_String_any_table (m : ProgressMap) (ks : list Z) :
  range_order m ks ->
  ProgressMap_String m ks
    = concat_lines (table_line m <$> (ascending_entries m).*1) /\
  StronglySorted Z.lt (ascending_entries m).*1 /\
  count_lines (ProgressMap_String m ks) = size m /\
  (forall id pr,
     m !! id = Some pr -> ~ recognized (State pr) ->
     table_line m id
       = fmt_d id +:+ ": %!s(PANIC=String method: unexpected state)"
           +:+ newline) /\
  (forall id pr,
     m !! id = Some pr -> wf pr -> recognized (State pr) ->
     table_line m id = render_line (id, pr)).
Proof.
  intros Hks.
  assert (Hout : ProgressMap_String m ks
                 = concat_lines (table_line m <$> (ascending_entries m).*1)).
  { unfold ProgressMap_String. rewrite range_append.
    change (fun a b : Z => a <? b) with Z.ltb.
    rewrite (sorted_ids m ks Hks).
    rewrite (foldl_append
               (fun id => fmt_d id +:+ ": " +:+ fmt_s_entry (m !! id)
                            +:+ newline)).
    rewrite append_nil_l. reflexivity. }
  split; [exact Hout|]. split; [apply ascending_entries_lt|].
  split; [|split].
  - rewrite Hout, count_lines_concat.
    + rewrite !length_fmap, ascending_entries_Permutation.
      apply length_map_to_list.
    + apply Forall_fmap, Forall_forall. intros id _.
      apply count_lines_table_line.
  - apply table_line_unrecognized.
  - intros id pr Hm Hwf Hr.
    apply (entry_line m (id, pr)); assumption.
Qed.

Lemma ProgressMap_String_any_table_witness :
  count_lines (ProgressMap_String unrecognized_table [7; 3]) = 2%nat.
Proof.
  assert (Hks : range_order unrecognized_table [7; 3]).
  { split.
    - repeat constructor; rewrite ?elem_of_cons, ?elem_of_nil; intuition lia.
    - intros k. unfold unrecognized_table. split.
      + rewrite !elem_of_cons, elem_of_nil.
        intros [-> | [-> | []]]; eexists; reflexivity.
      + intros Hk.
        destruct (decide (k = 3)) as [-> | H3]; [set_solver|].
        rewrite lookup_insert_ne in Hk by congruence.
        destruct (decide (k = 7)) as [-> | H7]; [set_solver|].
        rewrite lookup_insert_ne, lookup_empty in Hk by congruence.
        destruct Hk as [? Hk]. discriminate Hk. }
  exact (proj1 (proj2 (proj2
           (ProgressMap_String_any_table unrecognized_table [7; 3] Hks)))).
Defined.

(** The rendering of a table with an entry in an unrecognized state. *)
Example ProgressMap_String_unrecognized_example :
  ProgressMap_String unrecognized_table [7; 3] =
    concat_lines
      [ "3: %!s(PANIC=String method: unexpected state)" +:+ newline;
        "7: StateProbe match=0 next=1 paused" +:+ newline ].
Proof. vm_compute. reflexivity. Qed.

(** ** Acknowledgements: duplicates, reordering, stale indices *)

(** Case analysis on every comparison of the goal. *)
Ltac cmp_cases :=
  repeat match goal with
         | |- context [Z.ltb ?a ?b] => destruct (Z.ltb_spec a b)
         | |- context [Z.gtb ?a ?b] => destruct (Z.gtb_spec a b)
         | |- context [Z.leb ?a ?b] => destruct (Z.leb_spec a b)
         | |- context [Z.eqb ?a ?b] => destruct (Z.eqb_spec a b)
         end.

(** [MaybeUpdate] with the successor of the index named [a]. *)
Lemma MaybeUpdate_fields n pr :
  MaybeUpdate n pr =
    (Match pr <? n,
     mkProgress (if Match pr <? n then n else Match pr)
                (max (Next pr) (U64.add n 1)) (State pr) (PendingSnapshot pr)
                (RecentActive pr)
                (if Match pr <? n then false else ProbeSent pr)
                (Inflights pr) (IsLearner pr)).
Proof.
  unfold MaybeUpdate, ProbeAcked. destruct (Match pr <? n); reflexivity.
Qed.

(** A duplicate acknowledgement returns false and changes nothing. *)
Theorem MaybeUpdate_duplicate (n : Z) (pr : Progress) :
  MaybeUpdate n (MaybeUpdate n pr).2 = (false, (MaybeUpdate n pr).2).
Proof.
  rewrite (MaybeUpdate_fields n (MaybeUpdate n pr).2).
  rewrite (MaybeUpdate_fields n pr). simpl.
  generalize (U64.add n 1) as a. intros a. unfold max.
  cmp_cases; try lia; reflexivity.
Qed.

(** Two acknowledgements leave the same [Progress] in either order. *)
Theorem MaybeUpdate_reorder (n1 n2 : Z) (pr : Progress) :
  (MaybeUpdate n2 (MaybeUpdate n1 pr).2).2
    = (MaybeUpdate n1 (MaybeUpdate n2 pr).2).2.
Proof.
  rewrite (MaybeUpdate_fields n2 (MaybeUpdate n1 pr).2).
  rewrite (MaybeUpdate_fields n1 (MaybeUpdate n2 pr).2).
  rewrite (MaybeUpdate_fields n1 pr), (MaybeUpdate_fields n2 pr). simpl.
  generalize (U64.add n1 1) as a1. generalize (U64.add n2 1) as a2.
  intros a2 a1. rewrite !max_Zmax.
  destruct (Z.ltb_spec (Match pr) n1), (Z.ltb_spec (Match pr) n2); simpl;
    cmp_cases; try lia; f_equal; lia.
Qed.

(** [MaybeUpdate] never lowers [Match] or [Next], and returns true exactly
    when [Match] has grown. *)
Theorem MaybeUpdate_monotone (n : Z) (pr : Progress) :
  Match pr <= Match (MaybeUpdate n pr).2 /\
  Next pr <= Next (MaybeUpdate n pr).2 /\
  ((MaybeUpdate n pr).1 = true <-> Match pr < Match (MaybeUpdate n pr).2).
Proof.
  rewrite (MaybeUpdate_fields n pr). simpl.
  generalize (U64.add n 1) as a. intros a. unfold max.
  cmp_cases; (split; [lia | split; [lia | split; [intros; lia | ]]]);
    intros; try reflexivity; lia.
Qed.

(** While [Next] is ahead of [Match], an acknowledgement at or below
    [Match] returns false and changes nothing, [Next] included. *)
Theorem MaybeUpdate_stale_noop (n : Z) (pr : Progress) :
  wf pr -> U64.in_range n -> Match pr + 1 <= Next pr -> n <= Match pr ->
  MaybeUpdate n pr = (false, pr).
Proof.
  intros Hwf Hn Hinv Hstale. rewrite (MaybeUpdate_unfold n pr Hn).
  destruct (Z.ltb_spec (Match pr) n); [lia|].
  f_equal. destruct pr as [m nx st ps ra pbs w lr]. unfold set_Next. simpl in *.
  f_equal. u64_arith.
Qed.

Lemma MaybeUpdate_stale_noop_witness :
  let pr := mkProgress 5 9 StateReplicate 0 true false
                       (Inflights.mk 4 [6; 7; 8]) false in
  MaybeUpdate 4 pr = (false, pr).
Proof.
  cbv zeta.
  set (pr := mkProgress 5 9 StateReplicate 0 true false
                        (Inflights.mk 4 [6; 7; 8]) false).
  assert (Hwf : wf pr) by closed_range.
  assert (H4 : U64.in_range 4) by closed_range.
  assert (Hinv : Match pr + 1 <= Next pr) by discriminate.
  assert (Hst : 4 <= Match pr) by discriminate.
  exact (MaybeUpdate_stale_noop 4 pr Hwf H4 Hinv Hst).
Defined.

(** ** What acknowledgements and rejections leave alone *)

(** [MaybeUpdate] and [MaybeDecrTo] never change [State],
    [PendingSnapshot], the inflight window, [RecentActive] or [IsLearner];
    [MaybeDecrTo] never changes [Match]. *)
Theorem MaybeUpdate_MaybeDecrTo_frame
  (n rejected matchHint : Z) (pr : Progress) :
  let a := (MaybeUpdate n pr).2 in
  let r := (MaybeDecrTo rejected matchHint pr).2 in
  (State a = State pr /\ PendingSnapshot a = PendingSnapshot pr /\
   Inflights a = Inflights pr /\ RecentActive a = RecentActive pr /\
   IsLearner a = IsLearner pr) /\
  (State r = State pr /\ PendingSnapshot r = PendingSnapshot pr /\
   Inflights r = Inflights pr /\ RecentActive r = RecentActive pr /\
   IsLearner r = IsLearner pr /\ Match r = Match pr).
Proof.
  cbv zeta. rewrite (MaybeUpdate_fields n pr). unfold MaybeDecrTo. simpl.
  split; [repeat split|].
  destruct (State pr =? StateReplicate).
  - destruct (rejected <=? Match pr); simpl; repeat split.
  - destruct (U64.sub (Next pr) 1 =? rejected); simpl; repeat split.
Qed.

(** ** Optimistic sends *)

Lemma pred64_succ64 n : U64.in_range n -> pred64 (succ64 n) = n.
Proof. intros Hn. u64_arith. Qed.

Lemma OptimisticUpdate_fields n pr :
  U64.in_range n -> OptimisticUpdate n pr = set_Next (succ64 n) pr.
Proof. intros Hn. unfold OptimisticUpdate. rewrite (U64_add_1 n Hn). reflexivity. Qed.

(** After [OptimisticUpdate n] on a peer that is not replicating, the
    rejection of index [n] is the only one accepted, at every [n]
    ([MaxUint64] included, where [Next] has wrapped to 0): it sets [Next]
    to [max(min(n, hint + 1), 1)] with the 64-bit sum and clears
    [ProbeSent]; a rejection of any other index returns false and changes
    nothing. *)
Theorem OptimisticUpdate_then_MaybeDecrTo
  (n rejected matchHint : Z) (pr : Progress) :
  wf pr -> U64.in_range n -> U64.in_range rejected ->
  U64.in_range matchHint -> State pr <> StateReplicate ->
  let sent := OptimisticUpdate n pr in
  let ok := (MaybeDecrTo rejected matchHint sent).1 in
  let pr' := (MaybeDecrTo rejected matchHint sent).2 in
  (rejected = n ->
     MaybeDecrTo rejected matchHint (OptimisticUpdate n pr)
       = (true,
          set_ProbeSent false
            (set_Next (Z.max (Z.min n (succ64 matchHint)) 1) pr))) /\
  (rejected <> n ->
     MaybeDecrTo rejected matchHint (OptimisticUpdate n pr)
       = (false, OptimisticUpdate n pr)) /\
  (rejected = n ->
     ok = true /\ Next pr' = Z.max (Z.min n (succ64 matchHint)) 1 /\
     ProbeSent pr' = false /\ Match pr' = Match pr) /\
  (rejected <> n ->
     ok = false /\ Next pr' = succ64 n /\ ProbeSent pr' = ProbeSent pr /\
     Match pr' = Match pr).
Proof.
  intros (Hm & Hx & _ & _) Hn Hr Hh Hst. cbv zeta.
  rewrite (OptimisticUpdate_fields n pr Hn).
  rewrite (MaybeDecrTo_unfold rejected matchHint (set_Next (succ64 n) pr));
    [| exact (succ64_in_range n Hn) | exact Hm | exact Hh].
  simpl. rewrite (pred64_succ64 n Hn).
  destruct (Z.eqb_spec (State pr) StateReplicate); [contradiction|].
  destruct (Z.eqb_spec n rejected) as [Heq|Hne].
  - subst rejected. split; [reflexivity|]. split; [congruence|].
    split; [|congruence]. intros _. repeat split.
  - split; [congruence|]. split; [reflexivity|]. split; [congruence|].
    intros _. repeat split.
Qed.

Lemma OptimisticUpdate_then_MaybeDecrTo_witness :
  let pr := mkProgress 0 1 StateProbe 0 true true (Inflights.mk 4 []) false in
  ((MaybeDecrTo 7 2 (OptimisticUpdate 7 pr)).1 = true /\
   Next (MaybeDecrTo 7 2 (OptimisticUpdate 7 pr)).2
     = Z.max (Z.min 7 (succ64 2)) 1 /\
   ProbeSent (MaybeDecrTo 7 2 (OptimisticUpdate 7 pr)).2 = false) /\
  MaybeDecrTo 6 2 (OptimisticUpdate 7 pr) = (false, OptimisticUpdate 7 pr).
Proof.
  cbv zeta.
  set (pr := mkProgress 0 1 StateProbe 0 true true (Inflights.mk 4 []) false).
  assert (Hwf : wf pr) by closed_range.
  assert (H7 : U64.in_range 7) by closed_range.
  assert (H6 : U64.in_range 6) by closed_range.
  assert (H2 : U64.in_range 2) by closed_range.
  assert (Hst : State pr <> StateReplicate) by discriminate.
  assert (Hne : 6 <> 7) by discriminate.
  destruct (OptimisticUpdate_then_MaybeDecrTo 7 7 2 pr Hwf H7 H7 H2 Hst)
    as (_ & _ & Hacc & _).
  destruct (OptimisticUpdate_then_MaybeDecrTo 7 6 2 pr Hwf H7 H6 H2 Hst)
    as (_ & Hstale & _).
  destruct (Hacc eq_refl) as (Ha1 & Ha2 & Ha3 & _).
  exact (conj (conj Ha1 (conj Ha2 Ha3)) (Hstale Hne)).
Defined.

(** The acknowledgement of an index marked as sent by [OptimisticUpdate]
    leaves [Next] where the send put it; when the index is above [Match]
    and below [MaxUint64], [Match] becomes the index and [Next] is exactly
    [Match + 1]. *)
Theorem OptimisticUpdate_then_MaybeUpdate (n : Z) (pr : Progress) :
  wf pr -> U64.in_range n ->
  let sent := OptimisticUpdate n pr in
  let acked := (MaybeUpdate n sent).2 in
  Next acked = Next sent /\
  (Match pr < n -> n < U64.MaxUint64 ->
     (MaybeUpdate n sent).1 = true /\ Match acked = n /\
     Next acked = Match acked + 1).
Proof.
  intros Hwf Hn. cbv zeta.
  rewrite (OptimisticUpdate_fields n pr Hn).
  rewrite (MaybeUpdate_unfold n _ Hn). simpl.
  destruct (Z.ltb_spec (Match pr) n); simpl; (split; [lia|]); intros;
    try lia.
  repeat split. u64_arith.
Qed.

Lemma OptimisticUpdate_then_MaybeUpdate_witness :
  let pr := mkProgress 5 6 StateReplicate 0 true false
                       (Inflights.mk 4 []) false in
  Match (MaybeUpdate 9 (OptimisticUpdate 9 pr)).2 = 9 /\
  Next (MaybeUpdate 9 (OptimisticUpdate 9 pr)).2 = 9 + 1.
Proof.
  cbv zeta.
  set (pr := mkProgress 5 6 StateReplicate 0 true false
                        (Inflights.mk 4 []) false).
  assert (Hwf : wf pr) by closed_range.
  assert (H9 : U64.in_range 9) by closed_range.
  assert (Hlt : Match pr < 9) by reflexivity.
  assert (Hmax : 9 < U64.MaxUint64) by reflexivity.
  destruct (proj2 (OptimisticUpdate_then_MaybeUpdate 9 pr Hwf H9) Hlt Hmax)
    as (_ & Hm & Hx).
  refine (conj Hm _). rewrite Hx, Hm. reflexivity.
Defined.

(** ** Probing *)

(** On a peer that is not replicating, with [Next >= 2], the rejection of
    the index before [Next] is accepted and lowers [Next] strictly, never
    below 1. *)
Theorem MaybeDecrTo_probe_lowers_Next (matchHint : Z) (pr : Progress) :
  wf pr -> U64.in_range matchHint -> State pr <> StateReplicate ->
  2 <= Next pr ->
  (MaybeDecrTo (Next pr - 1) matchHint pr).1 = true /\
  1 <= Next (MaybeDecrTo (Next pr - 1) matchHint pr).2 < Next pr.
Proof.
  intros (Hm & Hx & _ & _) Hh Hst Hn.
  rewrite (MaybeDecrTo_unfold _ _ _ Hx Hm Hh).
  destruct (Z.eqb_spec (State pr) StateReplicate); [contradiction|].
  assert (Hp : pred64 (Next pr) = Next pr - 1) by u64_arith.
  rewrite Hp, Z.eqb_refl. simpl. split; [reflexivity|]. u64_arith.
Qed.

Lemma MaybeDecrTo_probe_lowers_Next_witness :
  let pr := mkProgress 0 9 StateProbe 0 true true (Inflights.mk 4 []) false in
  1 <= Next (MaybeDecrTo (Next pr - 1) 20 pr).2 < Next pr.
Proof.
  cbv zeta.
  set (pr := mkProgress 0 9 StateProbe 0 true true (Inflights.mk 4 []) false).
  assert (Hwf : wf pr) by closed_range.
  assert (H20 : U64.in_range 20) by closed_range.
  assert (Hst : State pr <> StateReplicate) by discriminate.
  assert (Hn : 2 <= Next pr) by discriminate.
  exact (proj2 (MaybeDecrTo_probe_lowers_Next 20 pr Hwf H20 Hst Hn)).
Defined.

(** On a peer that is not replicating, every accepted rejection whose
    hint is below [Match] leaves [Next] at or below [Match] (and at least
    1): the new [Next] is bounded below by 1, not by [Match + 1].  The
    rejection accepted is the one of the index before [Next] in 64-bit
    arithmetic, [MaxUint64] when [Next = 0]. *)
Theorem MaybeDecrTo_probe_below_Match
  (rejected matchHint : Z) (pr : Progress) :
  wf pr -> U64.in_range rejected -> U64.in_range matchHint ->
  State pr <> StateReplicate -> matchHint < Match pr ->
  let ok := (MaybeDecrTo rejected matchHint pr).1 in
  let pr' := (MaybeDecrTo rejected matchHint pr).2 in
  (ok = true <-> rejected = pred64 (Next pr)) /\
  (ok = true -> 1 <= Next pr' <= Match pr /\ Next pr' < Match pr + 1) /\
  (1 <= Next pr -> (ok = true <-> rejected = Next pr - 1)).
Proof.
  intros (Hm & Hx & _ & _) Hr Hh Hst Hlt. cbv zeta.
  rewrite (MaybeDecrTo_unfold _ _ _ Hx Hm Hh).
  destruct (Z.eqb_spec (State pr) StateReplicate); [contradiction|].
  assert (Hp : 1 <= Next pr -> pred64 (Next pr) = Next pr - 1)
    by (intros; u64_arith).
  destruct (Z.eqb_spec (pred64 (Next pr)) rejected) as [Heq|Hne]; simpl.
  - split; [split; [intros _; congruence | reflexivity]|].
    split; [intros _; u64_arith|].
    intros Hpos. rewrite <- (Hp Hpos). split; [congruence | reflexivity].
  - split; [split; [discriminate | congruence]|].
    split; [discriminate|].
    intros Hpos. rewrite <- (Hp Hpos). split; [discriminate | congruence].
Qed.

Lemma MaybeDecrTo_probe_below_Match_witness :
  let pr := mkProgress 5 10 StateProbe 0 true true (Inflights.mk 4 []) false in
  Next (MaybeDecrTo 9 2 pr).2 <= Match pr.
Proof.
  cbv zeta.
  set (pr := mkProgress 5 10 StateProbe 0 true true
                        (Inflights.mk 4 []) false).
  assert (Hwf : wf pr) by closed_range.
  assert (H9 : U64.in_range 9) by closed_range.
  assert (H2 : U64.in_range 2) by closed_range.
  assert (Hst : State pr <> StateReplicate) by discriminate.
  assert (Hlt : 2 < Match pr) by reflexivity.
  destruct (MaybeDecrTo_probe_below_Match 9 2 pr Hwf H9 H2 Hst Hlt)
    as (Hacc & Hbelow & _).
  exact (proj2 (proj1 (Hbelow (proj2 Hacc eq_refl)))).
Defined.

(** ** Pausing *)

(** A peer is not paused right after [BecomeProbe] and is paused right
    after [BecomeSnapshot].  In [StateProbe], [ProbeAcked], an
    acknowledgement that returns true and a rejection that returns true
    each leave it not paused.  In [StateSnapshot] it stays paused after
    every acknowledgement and every rejection. *)
Theorem IsPaused_after (pr : Progress) :
  IsPaused (BecomeProbe pr) = Ok false /\
  (forall snapshoti, IsPaused (BecomeSnapshot snapshoti pr) = Ok true) /\
  (State pr = StateProbe ->
     IsPaused (ProbeAcked pr) = Ok false /\
     (forall n, (MaybeUpdate n pr).1 = true ->
                IsPaused (MaybeUpdate n pr).2 = Ok false) /\
     (forall rejected matchHint,
        (MaybeDecrTo rejected matchHint pr).1 = true ->
        IsPaused (MaybeDecrTo rejected matchHint pr).2 = Ok false)) /\
  (State pr = StateSnapshot ->
     (forall n, IsPaused (MaybeUpdate n pr).2 = Ok true) /\
     (forall rejected matchHint,
        IsPaused (MaybeDecrTo rejected matchHint pr).2 = Ok true)).
Proof.
  split; [|split; [|split]].
  - unfold BecomeProbe. destruct (State pr =? StateSnapshot); reflexivity.
  - intros snapshoti. reflexivity.
  - intros Hst. split; [|split].
    + unfold IsPaused, ProbeAcked. simpl. rewrite Hst. reflexivity.
    + intros n. rewrite (MaybeUpdate_fields n pr). simpl.
      intros ->. unfold IsPaused. simpl. rewrite Hst. reflexivity.
    + intros rejected matchHint. unfold MaybeDecrTo. rewrite Hst. simpl.
      destruct (U64.sub (Next pr) 1 =? rejected); simpl;
        [|discriminate].
      intros _. unfold IsPaused. simpl. rewrite Hst. reflexivity.
  - intros Hst. split.
    + intros n. rewrite (MaybeUpdate_fields n pr). unfold IsPaused. simpl.
      rewrite Hst. reflexivity.
    + intros rejected matchHint. unfold MaybeDecrTo. rewrite Hst. simpl.
      destruct (U64.sub (Next pr) 1 =? rejected); unfold IsPaused; simpl;
        rewrite Hst; reflexivity.
Qed.

(** ** Leaving a snapshot *)

(** [BecomeSnapshot i] keeps [Match] and [Next] and records [i];
    [BecomeProbe] right after it resumes at the larger of the 64-bit
    successors of [Match] and [i], past both indices when they are below
    [MaxUint64], with [PendingSnapshot] cleared. *)
Theorem BecomeSnapshot_then_BecomeProbe (snapshoti : Z) (pr : Progress) :
  wf pr -> U64.in_range snapshoti ->
  let snap := BecomeSnapshot snapshoti pr in
  let probe := BecomeProbe snap in
  (State snap = StateSnapshot /\ PendingSnapshot snap = snapshoti /\
   Match snap = Match pr /\ Next snap = Next pr /\ ProbeSent snap = false) /\
  (State probe = StateProbe /\ PendingSnapshot probe = 0 /\
   Match probe = Match pr /\
   Next probe = Z.max (succ64 (Match pr)) (succ64 snapshoti)) /\
  (Match pr < U64.MaxUint64 -> snapshoti < U64.MaxUint64 ->
     Match pr < Next probe /\ snapshoti < Next probe).
Proof.
  intros Hwf Hi. cbv zeta.
  pose proof (BecomeSnapshot_wf snapshoti pr Hi Hwf) as Hwf'.
  rewrite (BecomeProbe_unfold _ Hwf'), BecomeSnapshot_fields. simpl.
  split; [repeat split|]. split; [repeat split|].
  intros. u64_arith.
Qed.

Lemma BecomeSnapshot_then_BecomeProbe_witness :
  let pr := mkProgress 3 4 StateReplicate 0 true false
                       (Inflights.mk 4 []) false in
  Match pr < Next (BecomeProbe (BecomeSnapshot 12 pr)) /\
  12 < Next (BecomeProbe (BecomeSnapshot 12 pr)).
Proof.
  cbv zeta.
  set (pr := mkProgress 3 4 StateReplicate 0 true false
                        (Inflights.mk 4 []) false).
  assert (Hwf : wf pr) by closed_range.
  assert (H12 : U64.in_range 12) by closed_range.
  assert (Hm : Match pr < U64.MaxUint64) by reflexivity.
  assert (Hs : 12 < U64.MaxUint64) by reflexivity.
  exact (proj2 (proj2 (BecomeSnapshot_then_BecomeProbe 12 pr Hwf H12)) Hm Hs).
Defined.

(** A second [BecomeProbe] sets [Next] to the 64-bit successor of [Match]:
    the index of the snapshot that the first one resumed after is
    forgotten, so when that index was above [Match] the second call
    lowers [Next]. *)
Theorem BecomeProbe_twice (pr : Progress) :
  wf pr ->
  Next (BecomeProbe (BecomeProbe pr)) = succ64 (Match pr) /\
  (State pr = StateSnapshot -> Match pr < PendingSnapshot pr ->
   PendingSnapshot pr < U64.MaxUint64 ->
     Next (BecomeProbe pr) = PendingSnapshot pr + 1 /\
     Next (BecomeProbe (BecomeProbe pr)) = Match pr + 1 /\
     Next (BecomeProbe (BecomeProbe pr)) < Next (BecomeProbe pr)).
Proof.
  intros Hwf.
  pose proof (BecomeProbe_wf pr Hwf) as Hwf'.
  rewrite (BecomeProbe_unfold _ Hwf'), (BecomeProbe_unfold _ Hwf). simpl.
  split; [reflexivity|].
  intros -> Hlt Hmax. simpl. u64_arith.
Qed.

Lemma BecomeProbe_twice_witness :
  let pr := mkProgress 3 4 StateSnapshot 10 true false
                       (Inflights.mk 4 []) false in
  Next (BecomeProbe pr) = 10 + 1 /\
  Next (BecomeProbe (BecomeProbe pr)) = 3 + 1.
Proof.
  cbv zeta.
  set (pr := mkProgress 3 4 StateSnapshot 10 true false
                        (Inflights.mk 4 []) false).
  assert (Hwf : wf pr) by closed_range.
  assert (Hlt : Match pr < PendingSnapshot pr) by reflexivity.
  assert (Hmax : PendingSnapshot pr < U64.MaxUint64) by reflexivity.
  destruct (proj2 (BecomeProbe_twice pr Hwf) eq_refl Hlt Hmax)
    as (H1 & H2 & _).
  exact (conj H1 H2).
Defined.

(** ** Sequences of calls *)

Lemma run_ops_app os1 os2 pr :
  run_ops (os1 ++ os2) pr = run_ops os2 (run_ops os1 pr).
Proof. unfold run_ops. apply foldl_app. Qed.

Lemma apply_op_Match_le o pr : Match pr <= Match (apply_op o pr).
Proof.
  destruct o as [st| | | |i|n|n|r h]; simpl.
  - reflexivity.
  - reflexivity.
  - unfold BecomeProbe. destruct (State pr =? StateSnapshot); simpl; lia.
  - simpl. lia.
  - simpl. lia.
  - apply MaybeUpdate_Match_mono.
  - simpl. lia.
  - unfold MaybeDecrTo. destruct (State pr =? StateReplicate).
    + destruct (r <=? Match pr); simpl; lia.
    + destruct (U64.sub (Next pr) 1 =? r); simpl; lia.
Qed.

Lemma run_ops_Match_le os : forall pr, Match pr <= Match (run_ops os pr).
Proof.
  induction os as [|o os IH]; intros pr; [reflexivity|].
  unfold run_ops in *. simpl.
  pose proof (apply_op_Match_le o pr). specialize (IH (apply_op o pr)). lia.
Qed.

(** Along every sequence of calls of the methods of [Progress], with any
    arguments, [Match] never decreases: its value after a prefix of the
    sequence is at most its value after the whole sequence. *)
Theorem Match_never_decreases (os1 os2 : list op) (pr : Progress) :
  Match pr <= Match (run_ops os1 pr) /\
  Match (run_ops os1 pr) <= Match (run_ops (os1 ++ os2) pr).
Proof.
  split; [apply run_ops_Match_le|].
  rewrite run_ops_app. apply run_ops_Match_le.
Qed.

Lemma apply_op_keeps_State o pr :
  is_transition o = false ->
  State (apply_op o pr) = State pr /\
  PendingSnapshot (apply_op o pr) = PendingSnapshot pr /\
  Inflights (apply_op o pr) = Inflights pr.
Proof.
  destruct o as [st| | | |i|n|n|r h]; simpl; try discriminate; intros _.
  - repeat split.
  - rewrite (MaybeUpdate_fields n pr). repeat split.
  - repeat split.
  - unfold MaybeDecrTo. destruct (State pr =? StateReplicate).
    + destruct (r <=? Match pr); repeat split.
    + destruct (U64.sub (Next pr) 1 =? r); repeat split.
Qed.

Lemma run_ops_keeps_State os : forall pr,
  Forall (fun o => is_transition o = false) os ->
  State (run_ops os pr) = State pr /\
  PendingSnapshot (run_ops os pr) = PendingSnapshot pr /\
  Inflights (run_ops os pr) = Inflights pr.
Proof.
  induction os as [|o os IH]; intros pr Hall; [repeat split|].
  apply Forall_cons in Hall as [Ho Hall].
  destruct (apply_op_keeps_State o pr Ho) as (Hs & Hp & Hw).
  destruct (IH (apply_op o pr) Hall) as (Hs' & Hp' & Hw').
  unfold run_ops in *. simpl. rewrite Hs', Hp', Hw'. auto.
Qed.

(** Only the calls that go through [ResetState] change [State],
    [PendingSnapshot] or the inflight window: every sequence of
    [ProbeAcked], [MaybeUpdate], [OptimisticUpdate] and [MaybeDecrTo]
    calls leaves the three as they were, so a peer in [StateSnapshot]
    stays paused along it. *)
Theorem State_changes_only_by_transition (os : list op) (pr : Progress) :
  Forall (fun o => is_transition o = false) os ->
  State (run_ops os pr) = State pr /\
  PendingSnapshot (run_ops os pr) = PendingSnapshot pr /\
  Inflights (run_ops os pr) = Inflights pr /\
  (State pr = StateSnapshot -> IsPaused (run_ops os pr) = Ok true).
Proof.
  intros Hall. destruct (run_ops_keeps_State os pr Hall) as (Hs & Hp & Hw).
  repeat split; try assumption.
  intros Hsnap. unfold IsPaused. rewrite Hs, Hsnap. reflexivity.
Qed.

Lemma State_changes_only_by_transition_witness :
  let pr := mkProgress 3 4 StateSnapshot 10 true false
                       (Inflights.mk 4 []) false in
  let os := [OpMaybeUpdate 6; OpMaybeDecrTo 6 2; OpOptimisticUpdate 8;
             OpProbeAcked; OpMaybeDecrTo 8 1] in
  State (run_ops os pr) = StateSnapshot /\
  IsPaused (run_ops os pr) = Ok true.
Proof.
  cbv zeta.
  set (pr := mkProgress 3 4 StateSnapshot 10 true false
                        (Inflights.mk 4 []) false).
  set (os := [OpMaybeUpdate 6; OpMaybeDecrTo 6 2; OpOptimisticUpdate 8;
              OpProbeAcked; OpMaybeDecrTo 8 1]).
  assert (Hall : Forall (fun o => is_transition o = false) os)
    by (repeat constructor).
  destruct (State_changes_only_by_transition os pr Hall)
    as (Hs & _ & _ & Hp).
  exact (conj Hs (Hp eq_refl)).
Defined.

Lemma apply_op_positive_Next o pr :
  op_bounded o -> positive_Next pr -> positive_Next (apply_op o pr).
Proof.
  unfold positive_Next. intros Hb (Hwf & Hn & Hmax).
  pose proof Hwf as (Hm & Hx & Hs & Hp).
  destruct o as [st| | | |i|n|n|r h]; unfold apply_op, op_bounded in *.
  - unfold wf. simpl. wf_arith.
  - unfold wf. simpl. wf_arith.
  - rewrite (BecomeProbe_unfold pr Hwf).
    pose proof (succ64_in_range _ Hm). pose proof (succ64_in_range _ Hp).
    assert (succ64 (Match pr) = Match pr + 1) by u64_arith.
    unfold wf; simpl. destruct (State pr =? StateSnapshot); wf_arith.
  - rewrite (BecomeReplicate_unfold pr Hwf).
    assert (succ64 (Match pr) = Match pr + 1) by u64_arith.
    unfold U64.MaxUint64 in *. unfold wf; simpl. wf_arith.
  - rewrite BecomeSnapshot_fields. unfold wf; simpl. wf_arith.
  - assert (Hr : U64.in_range n)
      by (unfold U64.in_range, U64.MaxUint64 in *; lia).
    rewrite (MaybeUpdate_unfold n pr Hr).
    assert (succ64 n = n + 1) by u64_arith.
    unfold U64.MaxUint64 in *.
    destruct (Z.ltb_spec (Match pr) n); unfold wf; simpl; wf_arith.
  - assert (Hr : U64.in_range n)
      by (unfold U64.in_range, U64.MaxUint64 in *; lia).
    rewrite (OptimisticUpdate_fields n pr Hr).
    assert (succ64 n = n + 1) by u64_arith.
    unfold U64.MaxUint64 in *. unfold wf; simpl. wf_arith.
  - destruct Hb as [Hr Hh].
    rewrite (MaybeDecrTo_unfold r h pr Hx Hm Hh).
    assert (succ64 (Match pr) = Match pr + 1) by u64_arith.
    pose proof (succ64_in_range _ Hh).
    unfold U64.MaxUint64 in *.
    destruct (State pr =? StateReplicate).
    + destruct (r <=? Match pr); unfold wf; simpl; wf_arith.
    + destruct (pred64 (Next pr) =? r); unfold wf; simpl; wf_arith.
Qed.

(** From a [Progress] with [Next >= 1] and [Match < MaxUint64], along
    every sequence of calls whose arguments are [uint64] values and whose
    acknowledged and sent indices are below [MaxUint64], [Next] stays at
    least 1 and [Match] stays below [MaxUint64]. *)
Theorem Next_stays_positive (os : list op) (pr : Progress) :
  wf pr -> 1 <= Next pr -> Match pr < U64.MaxUint64 ->
  Forall op_bounded os ->
  wf (run_ops os pr) /\ 1 <= Next (run_ops os pr) /\
  Match (run_ops os pr) < U64.MaxUint64.
Proof.
  intros Hwf Hn Hmax Hall.
  assert (Hinv : positive_Next pr) by (unfold positive_Next; auto).
  clear Hwf Hn Hmax. revert pr Hinv.
  induction Hall as [|o os Ho _ IH]; intros pr Hinv; [exact Hinv|].
  unfold run_ops in *. simpl. apply IH, apply_op_positive_Next; assumption.
Qed.

Lemma Next_stays_positive_witness :
  let pr := mkProgress 0 1 StateProbe 0 true false (Inflights.mk 4 []) false in
  let os := [OpOptimisticUpdate 1; OpMaybeDecrTo 1 0; OpMaybeUpdate 1;
             OpBecomeReplicate; OpOptimisticUpdate 5; OpMaybeDecrTo 3 0;
             OpBecomeSnapshot 9; OpBecomeProbe; OpMaybeDecrTo 9 0] in
  1 <= Next (run_ops os pr).
Proof.
  cbv zeta.
  set (pr := mkProgress 0 1 StateProbe 0 true false (Inflights.mk 4 []) false).
  set (os := [OpOptimisticUpdate 1; OpMaybeDecrTo 1 0; OpMaybeUpdate 1;
              OpBecomeReplicate; OpOptimisticUpdate 5; OpMaybeDecrTo 3 0;
              OpBecomeSnapshot 9; OpBecomeProbe; OpMaybeDecrTo 9 0]).
  assert (Hwf : wf pr) by closed_range.
  assert (Hn : 1 <= Next pr) by discriminate.
  assert (Hmax : Match pr < U64.MaxUint64) by reflexivity.
  assert (Hall : Forall op_bounded os)
    by (repeat constructor; closed_range).
  exact (proj1 (proj2 (Next_stays_positive os pr Hwf Hn Hmax Hall))).
Defined.

(** ** Duplicate rejections *)

(** A rejection that was accepted, delivered a second time: in
    [StateReplicate] it is accepted again and leaves the [Progress] as the
    first delivery left it; in the other states, when [Next] was at least
    2, it is stale, returns false and changes nothing. *)
Theorem MaybeDecrTo_duplicate
  (rejected matchHint matchHint' : Z) (pr : Progress) :
  wf pr -> U64.in_range rejected -> U64.in_range matchHint ->
  U64.in_range matchHint' ->
  (MaybeDecrTo rejected matchHint pr).1 = true ->
  let pr' := (MaybeDecrTo rejected matchHint pr).2 in
  (State pr = StateReplicate ->
     MaybeDecrTo rejected matchHint' pr' = (true, pr')) /\
  (State pr <> StateReplicate -> 2 <= Next pr ->
     MaybeDecrTo rejected matchHint' pr' = (false, pr')).
Proof.
  intros Hwf Hr Hh Hh'. pose proof Hwf as (Hm & Hx & _ & _).
  rewrite (MaybeDecrTo_unfold _ _ _ Hx Hm Hh). cbv zeta.
  destruct (Z.eqb_spec (State pr) StateReplicate) as [Hst|Hst].
  - destruct (Z.leb_spec rejected (Match pr)) as [Hle|Hgt]; simpl;
      [discriminate|]. intros _. split; [|contradiction].
    intros _.
    rewrite (MaybeDecrTo_unfold rejected matchHint'
               (set_Next (succ64 (Match pr)) pr));
      [| exact (succ64_in_range _ Hm) | exact Hm | exact Hh'].
    simpl. rewrite Hst. simpl.
    destruct (Z.leb_spec rejected (Match pr)); [lia | reflexivity].
  - destruct (Z.eqb_spec (pred64 (Next pr)) rejected) as [Heq|Hne]; simpl;
      [|discriminate]. intros _. split; [contradiction|].
    intros _ Hn.
    set (next' := Z.max (Z.min rejected (succ64 matchHint)) 1).
    assert (Hnext : 1 <= next' <= rejected /\ U64.in_range next').
    { subst next'. pose proof (succ64_in_range _ Hh). u64_arith. }
    rewrite (MaybeDecrTo_unfold rejected matchHint'
               (set_ProbeSent false (set_Next next' pr)));
      [| exact (proj2 Hnext) | exact Hm | exact Hh'].
    simpl. destruct (Z.eqb_spec (State pr) StateReplicate); [contradiction|].
    destruct (Z.eqb_spec (pred64 next') rejected) as [Heq'|Hne'];
      [|reflexivity].
    exfalso. destruct Hnext as [Hnext _]. u64_arith.
Qed.

Lemma MaybeDecrTo_duplicate_witness :
  let pr := mkProgress 0 9 StateProbe 0 true true (Inflights.mk 4 []) false in
  MaybeDecrTo 8 3 (MaybeDecrTo 8 3 pr).2 = (false, (MaybeDecrTo 8 3 pr).2).
Proof.
  cbv zeta.
  set (pr := mkProgress 0 9 StateProbe 0 true true (Inflights.mk 4 []) false).
  assert (Hwf : wf pr) by closed_range.
  assert (H8 : U64.in_range 8) by closed_range.
  assert (H3 : U64.in_range 3) by closed_range.
  assert (Hst : State pr <> StateReplicate) by discriminate.
  assert (Hn : 2 <= Next pr) by discriminate.
  exact (proj2 (MaybeDecrTo_duplicate 8 3 3 pr Hwf H8 H3 H3 eq_refl) Hst Hn).
Defined.

(** * The Kubernetes traffic *)


(** The two thresholds of [Write], without division. *)
Lemma below_half avg n :
  0 <= avg -> (n <? Int.quo avg 2) = (2 * n + 1 <? avg).
Proof.
  intros H. unfold Int.quo. rewrite Z.quot_div_nonneg by lia.
  destruct (Z.ltb_spec n (avg / 2)), (Z.ltb_spec (2 * n + 1) avg);
    try reflexivity; exfalso; Z.div_mod_to_equations; lia.
Qed.


Lemma random_object_ok e objects :
  traffic.rand_in_range e -> 0 < traffic.len objects ->
  exists kv, kv ∈ objects /\ traffic.random_object e objects = ([], Ok kv).
Proof.
  intros Hrand Hlen. unfold traffic.random_object.
  destruct (Z.leb_spec (traffic.len objects) 0); [lia|].
  specialize (Hrand _ Hlen).
  destruct (Z.ltb_spec (traffic.rand_Intn e (traffic.len objects)) 0); [lia|].
  destruct (objects !! Z.to_nat (traffic.rand_Intn e (traffic.len objects)))
    as [kv|] eqn:Hkv.
  - exists kv. split; [|reflexivity].
    eapply list_elem_of_lookup_2, Hkv.
  - apply lookup_ge_None_1 in Hkv. unfold traffic.len in *. lia.
Qed.

Lemma Write_create t e objects :
  0 <= traffic.averageKeyCount t ->
  2 * traffic.len objects + 1 < traffic.averageKeyCount t ->
  traffic.Write t e objects =
    traffic.Create t e (traffic.generateKey t e)
                   (Int.fmt_d (traffic.NewRequestId e)).
Proof.
  intros Havg Hlt. unfold traffic.Write.
  rewrite (below_half _ _ Havg).
  destruct (Z.ltb_spec (2 * traffic.len objects + 1) (traffic.averageKeyCount t));
    [reflexivity | lia].
Qed.


(** [Write] once an object has been drawn, with the second threshold as
    the code computes it. *)
Lemma Write_with_object_raw t e objects :
  0 <= traffic.averageKeyCount t ->
  traffic.rand_in_range e ->
  traffic.averageKeyCount t <= 2 * traffic.len objects + 1 ->
  0 < traffic.len objects ->
  exists randomPod, randomPod ∈ objects /\
    traffic.Write t e objects =
      if traffic.len objects
           >? Int.quo (Int.mul (traffic.averageKeyCount t) 3) 2 then
        traffic.Delete t e (traffic.Key randomPod)
                       (traffic.ModRevision randomPod)
      else
        let op := traffic.pickRandom e (traffic.writeChoices t) in
        if String.eqb op traffic.KubernetesDelete then
          traffic.Delete t e (traffic.Key randomPod)
                         (traffic.ModRevision randomPod)
        else if String.eqb op traffic.KubernetesUpdate then
          traffic.Update t e (traffic.Key randomPod)
                         (Int.fmt_d (traffic.NewRequestId e))
                         (traffic.ModRevision randomPod)
        else if String.eqb op traffic.KubernetesCreate then
          traffic.Create t e (traffic.generateKey t e)
                         (Int.fmt_d (traffic.NewRequestId e))
        else traffic.panic ("invalid choice: " +:+ traffic.fmt_q op).
Proof.
  intros Havg Hrand Hge Hlen.
  destruct (random_object_ok e objects Hrand Hlen) as (kv & Hin & Hkv).
  exists kv. split; [exact Hin|].
  unfold traffic.Write.
  rewrite (below_half _ _ Havg), Hkv.
  destruct (Z.ltb_spec (2 * traffic.len objects + 1) (traffic.averageKeyCount t));
    [lia|].
  unfold traffic.mbind. cbv zeta.
  destruct (traffic.len objects
              >? Int.quo (Int.mul (traffic.averageKeyCount t) 3) 2);
    [reflexivity|].
  destruct (String.eqb _ traffic.KubernetesDelete); [reflexivity|].
  destruct (String.eqb _ traffic.KubernetesUpdate); [reflexivity|].
  destruct (String.eqb _ traffic.KubernetesCreate); reflexivity.
Qed.


Lemma example_env_rand_in_range found :
  traffic.rand_in_range (traffic.example_env found).
Proof. intros n Hn. simpl. lia. Qed.

Lemma example_env_pick_known found t :
  traffic.pick_known (traffic.example_env found) t.
Proof. left. reflexivity. Qed.


(** With [averageKeyCount] at least 2, in-range draws and a known request
    type, [Write] does not panic and makes exactly one request: either the
    creation of a generated key expecting revision 0, or an update or
    deletion of one of the objects read that expects the revision read. *)
Theorem Write_one_guarded_request
  (t : traffic.kubernetesTraffic) (e : traffic.env)
  (objects : list traffic.KeyValue) :
  2 <= traffic.averageKeyCount t ->
  traffic.rand_in_range e -> traffic.pick_known e t ->
  exists c err,
    traffic.Write t e objects = ([c], Ok err) /\
    (traffic.creates t e c \/ traffic.guards_read_revision objects c).
Proof.
  intros Havg Hrand Hpick.
  assert (Havg' : 0 <= traffic.averageKeyCount t) by lia.
  destruct (Z_lt_le_dec (2 * traffic.len objects + 1)
                        (traffic.averageKeyCount t)) as [Hlt|Hge].
  - rewrite (Write_create t e objects Havg' Hlt).
    eexists _, _. split; [reflexivity|]. left. eexists. reflexivity.
  - destruct (Write_with_object_raw t e objects Havg' Hrand Hge)
      as (kv & Hin & Hw); [unfold traffic.len in *; lia|].
    rewrite Hw. clear Hw.
    destruct (traffic.len objects
                >? Int.quo (Int.mul (traffic.averageKeyCount t) 3) 2).
    { eexists _, _. split; [reflexivity|]. right. exists kv.
      split; [exact Hin|]. right. reflexivity. }
    cbv zeta. unfold traffic.pick_known in Hpick. cbv zeta in Hpick.
    destruct Hpick as [-> | [-> | ->]]; simpl.
    + eexists _, _. split; [reflexivity|]. right. exists kv.
      split; [exact Hin|]. left. eexists. reflexivity.
    + eexists _, _. split; [reflexivity|]. right. exists kv.
      split; [exact Hin|]. right. reflexivity.
    + eexists _, _. split; [reflexivity|]. left. eexists. reflexivity.
Qed.

Lemma Write_one_guarded_request_witness :
  let objects := [traffic.mkKeyValue "/registry/pods/default/aaaaa" 7;
                  traffic.mkKeyValue "/registry/pods/default/bbbbb" 9;
                  traffic.mkKeyValue "/registry/pods/default/ccccc" 4] in
  exists c err,
    traffic.Write traffic.KubernetesTraffic_traffic
                  (traffic.example_env objects) objects = ([c], Ok err) /\
    (traffic.creates traffic.KubernetesTraffic_traffic
                     (traffic.example_env objects) c \/
     traffic.guards_read_revision objects c).
Proof.
  cbv zeta.
  assert (Havg : 2 <= traffic.averageKeyCount traffic.KubernetesTraffic_traffic)
    by discriminate.
  exact (Write_one_guarded_request traffic.KubernetesTraffic_traffic _ _
           Havg (example_env_rand_in_range _) (example_env_pick_known _ _)).
Defined.

(** The update of the example: the first object, at the revision read. *)
Example Write_example :
  let objects := [traffic.mkKeyValue "/registry/pods/default/aaaaa" 7;
                  traffic.mkKeyValue "/registry/pods/default/bbbbb" 9;
                  traffic.mkKeyValue "/registry/pods/default/ccccc" 4] in
  traffic.Write traffic.KubernetesTraffic_traffic
                (traffic.example_env objects) objects
    = ([traffic.CallCompareRevisionAndPut
          "/registry/pods/default/aaaaa" "42" 7], Ok None).
Proof. reflexivity. Qed.

(** On an empty list of objects, [Write] creates a key when
    [averageKeyCount] is at least 2, and panics in [rand.Intn(0)], without
    any request, when [averageKeyCount] is at most 1. *)
Theorem Write_no_objects (t : traffic.kubernetesTraffic) (e : traffic.env) :
  (2 <= traffic.averageKeyCount t ->
     exists c err, traffic.Write t e [] = ([c], Ok err) /\
                   traffic.creates t e c) /\
  (traffic.averageKeyCount t <= 1 ->
     traffic.Write t e [] = ([], Panic "invalid argument to Intn")).
Proof.
  split.
  - intros Havg. rewrite (Write_create t e []); [| lia | unfold traffic.len; simpl; lia].
    eexists _, _. split; [reflexivity|]. eexists. reflexivity.
  - intros Havg. unfold traffic.Write, Int.quo.
    assert (Hq : traffic.averageKeyCount t ÷ 2 <= 0).
    { destruct (Z_lt_le_dec (traffic.averageKeyCount t) 0) as [Hneg|Hpos].
      - apply Z.quot_le_upper_bound; lia.
      - assert (Hc : traffic.averageKeyCount t = 0
                     \/ traffic.averageKeyCount t = 1) by lia.
        destruct Hc as [-> | ->]; discriminate. }
    destruct (Z.ltb_spec (traffic.len []) (traffic.averageKeyCount t ÷ 2));
      [unfold traffic.len in *; simpl in *; lia|].
    reflexivity.
Qed.



(** ** One pass of [Run] *)





(** One pass of the configured traffic over an empty store. *)
Example Run_iteration_example :
  traffic.Run_iteration traffic.KubernetesTraffic_traffic
                        (traffic.example_env [])
    = ([traffic.CallRange "/registry/pods/" true; traffic.CallWait;
        traffic.CallCompareRevisionAndPut
          "/registry/pods/default/abcde" "42" 0;
        traffic.CallWait], Ok tt).
Proof. reflexivity. Qed.
